(** * The script model of the data-move utility: Script, ScriptOrg, ScriptObject

    A shallow embedding of src/modules/models (the classes Script, ScriptOrg,
    ScriptObject, SFieldDescribe and OrgInfo) and the properties of plan
    compilation: [ScriptObject.setup], [ScriptOrg.setupAsync] and
    [Script.setupAsync].

    JavaScript objects that are shared and mutated in place (the ScriptObject
    and ScriptOrg instances, reachable from [Script.objects], from
    [Script.objectsMap] and from [Script.sourceOrg]) live in a store and are
    named by their index in it. Exceptions and the calls to the outside (the
    logger, the sfdx command line, the queries sent to an org) are threaded
    through a state-and-exception monad whose state also records the trace of
    those calls. *)

From Stdlib Require Import String Ascii List ZArith Bool Lia.
From stdpp Require Import base option list strings gmap fin_maps.

Open Scope string_scope.
Open Scope list_scope.

(** ** Strings, as the JavaScript methods used by the source act on them *)

Module Js.

(** [s.split(sep)] for a separator of one character: the pieces between the
    separators, empty pieces kept; never the empty list. *)
Fixpoint split_go (sep : ascii) (cur : string) (s : string) : list string :=
  match s with
  | EmptyString => [String.rev cur]
  | String c s' =>
      if Ascii.eqb c sep then String.rev cur :: split_go sep EmptyString s'
      else split_go sep (String c cur) s'
  end.

Definition split (sep : ascii) (s : string) : list string :=
  split_go sep EmptyString s.

(** [a.pop()] read as a value: the last element, [undefined] on []. *)
Definition pop {A} (l : list A) : option A := last l.

(** [s.startsWith(p)]. *)
Definition startsWith (p s : string) : bool := String.prefix p s.

Definition lower (c : ascii) : ascii :=
  let n := nat_of_ascii c in
  if (65 <=? n)%nat && (n <=? 90)%nat then ascii_of_nat (n + 32) else c.

(** [s.toLowerCase()] on the ASCII letters. The source compares the result
    with "csvfile" only, and no character outside ASCII lower-cases to one
    of the letters of that word. *)
Fixpoint toLowerCase (s : string) : string :=
  match s with
  | EmptyString => EmptyString
  | String c s' => String (lower c) (toLowerCase s')
  end.

(** Truthiness of a string: [!!s]. *)
Definition truthy (s : string) : bool := negb (String.eqb s "").

(** Truthiness of a value that is a string or [undefined]. *)
Definition truthy_opt (s : option string) : bool :=
  match s with Some s => truthy s | None => false end.

(** [a == b] for [a] a string or [undefined] and [b] a string. *)
Definition eq_opt (a : option string) (b : string) : bool :=
  match a with Some a => String.eqb a b | None => false end.

End Js.

(** ** Enumerations of components/statics and components/messages *)

(** Modelled from the spec: the enum OPERATION is declared in
    components/statics, which is not under src/. Its members are those of
    section 3, "resolved operation (enum: Insert, Update, Upsert, Delete,
    Readonly)". *)
Inductive OPERATION := Insert | Update | Upsert | Delete | Readonly.

#[global] Instance OPERATION_eq_dec : EqDecision OPERATION.
Proof. solve_decision. Defined.

(** The value of the field [operation]: a member of the enum, or the text a
    script file supplies, or [undefined]. *)
Inductive OperationValue :=
| OpEnum (o : OPERATION)
| OpText (s : string)
| OpUndefined.

Definition OPERATION_of_name (s : string) : option OPERATION :=
  if String.eqb s "Insert" then Some Insert
  else if String.eqb s "Update" then Some Update
  else if String.eqb s "Upsert" then Some Upsert
  else if String.eqb s "Delete" then Some Delete
  else if String.eqb s "Readonly" then Some Readonly
  else None.

(** [OPERATION[text]]: the member of that name. For a text that names no
    member the lookup gives [undefined] (or, for a numeric key, the reverse
    mapping gives a member's name): a value that is [==] to no member. *)
Definition OPERATION_index (s : string) : OperationValue :=
  match OPERATION_of_name s with
  | Some o => OpEnum o
  | None => OpUndefined
  end.

(** The enum DATA_MEDIA_TYPE of components/statics, with the two members the
    source names. *)
Inductive DATA_MEDIA_TYPE := Org | File.

#[global] Instance DATA_MEDIA_TYPE_eq_dec : EqDecision DATA_MEDIA_TYPE.
Proof. solve_decision. Defined.

(** The keys of RESOURCES (components/messages) that the source uses. *)
Inductive RESOURCES :=
| objectWillBeExcluded
| noObjectsDefinedInPackageFile
| MalformedQuery
| MalformedDeleteQuery
| accessToOrgExpired
| tryingToConnectCLI
| tryingToConnectCLIFailed
| successfullyConnected
| gettingOrgMetadata.

#[global] Instance RESOURCES_eq_dec : EqDecision RESOURCES.
Proof. solve_decision. Defined.

(** What the code throws. [logger.getResourceString(resource, ...params)]
    renders a message from a resource key and its parameters; the model keeps
    the key and the parameters. A [TypeError] is what the runtime throws on a
    property read from [null] or [undefined]. *)
Inductive Error :=
| CommandInitializationError (resource : RESOURCES) (params : list string)
| TypeError (what : string).

(** ** The query AST of soql-parser-js, as far as the source reads it *)

(** An entry of [Query.fields]. Plain and relationship fields carry a property
    [field]; the other kinds (function expressions, subqueries) do not. *)
Inductive FieldType :=
| Field (field : string)
| FieldRelationship (field : string) (relationships : list string)
| FieldFunctionExpression (rawValue : string).

(** [(<SOQLField>x).field], [None] for [undefined]. *)
Definition field_of (x : FieldType) : option string :=
  match x with
  | Field f => Some f
  | FieldRelationship f _ => Some f
  | FieldFunctionExpression _ => None
  end.

(** [getComposedField(name)] for a name without a dot. *)
Definition getComposedField (name : string) : FieldType := Field name.

Inductive Values :=
| ValueList (vs : list string)
| ValueOne (v : string).

Record Condition := mkCondition {
  cond_field : string;
  cond_operator : option string;
  cond_value : Values;
  cond_literalType : option string }.

Inductive WhereClause :=
| WhereLeft (left : Condition)
| WhereJoin (left : Condition) (logicalOperator : option string)
            (right : WhereClause).

Record OrderByClause := mkOrderBy {
  order_field : string;
  order_order : string }.

Module Query.
Record t := mk {
  fields : list FieldType;
  sObject : string;
  where_ : option WhereClause;
  orderBy : option OrderByClause;
  limit : option Z }.

Definition set_fields (v : list FieldType) (q : t) : t :=
  mk v (sObject q) (where_ q) (orderBy q) (limit q).
Definition set_where (v : option WhereClause) (q : t) : t :=
  mk (fields q) (sObject q) v (orderBy q) (limit q).
Definition set_orderBy (v : option OrderByClause) (q : t) : t :=
  mk (fields q) (sObject q) (where_ q) v (limit q).
End Query.

(** ** Helpers of components/commonUtils *)

Module CommonUtils.

Fixpoint distinct_go (seen : list (option string)) (l : list FieldType)
  : list FieldType :=
  match l with
  | [] => []
  | x :: l' =>
      if decide (field_of x ∈ seen) then distinct_go seen l'
      else x :: distinct_go (field_of x :: seen) l'
  end.

(** Modelled from the spec: CommonUtils.distinctArray is in
    components/commonUtils, which is not under src/. Section 4.1:
    "duplicates collapsed by a stable de-duplication pass keyed on field
    identity (first occurrence wins)". The source calls it with the key
    property "field". *)
Definition distinctArray (l : list FieldType) : list FieldType :=
  distinct_go [] l.

(** Modelled from the spec: CommonUtils.composeWhereClause is in
    components/commonUtils, which is not under src/. Section 4.1:
    "conjoins a new predicate onto the existing filter clause (creating one
    if absent)". An argument that a call leaves out is [None], the
    helper's own default. *)
Definition composeWhereClause (where_ : option WhereClause)
    (fieldName : string) (values : Values)
    (operator literalType logicalOperator : option string) : WhereClause :=
  let c := mkCondition fieldName operator values literalType in
  match where_ with
  | None => WhereLeft c
  | Some w => WhereJoin c logicalOperator w
  end.

End CommonUtils.


(** ** Metadata descriptions *)

Module SFieldDescribe.

Record t := mk {
  name : string;
  type : string;
  label : string;
  updateable : bool;
  creatable : bool;
  cascadeDelete : bool;
  autoNumber : bool;
  custom : bool;
  calculated : bool;
  isReference : bool;
  referencedObjectType : string }.

Definition isMasterDetail (d : t) : bool :=
  isReference d && (negb (updateable d) || cascadeDelete d).

Definition isFormula (d : t) : bool := calculated d.

Definition isReadonly (d : t) : bool :=
  negb (creatable d && negb (isFormula d) && negb (autoNumber d)).

Definition isBoolean (d : t) : bool := String.eqb (type d) "boolean".

End SFieldDescribe.

(** ** The response of force:org:display *)

Module OrgInfo.

(** The fields have no initialiser: [None] is [undefined]. *)
Record t := mk {
  AccessToken : option string;
  ClientId : option string;
  ConnectedStatus : option string;
  Status : option string;
  OrgId : option string;
  UserId : option string;
  InstanceUrl : option string;
  Username : option string }.

Definition new : t := mk None None None None None None None None.

Definition isConnected (i : t) : bool :=
  Js.eq_opt (ConnectedStatus i) "Connected" || Js.eq_opt (Status i) "Active".

Definition set_AccessToken v (i : t) : t :=
  mk v (ClientId i) (ConnectedStatus i) (Status i) (OrgId i) (UserId i)
     (InstanceUrl i) (Username i).
Definition set_ClientId v (i : t) : t :=
  mk (AccessToken i) v (ConnectedStatus i) (Status i) (OrgId i) (UserId i)
     (InstanceUrl i) (Username i).
Definition set_ConnectedStatus v (i : t) : t :=
  mk (AccessToken i) (ClientId i) v (Status i) (OrgId i) (UserId i)
     (InstanceUrl i) (Username i).
Definition set_Status v (i : t) : t :=
  mk (AccessToken i) (ClientId i) (ConnectedStatus i) v (OrgId i) (UserId i)
     (InstanceUrl i) (Username i).
Definition set_OrgId v (i : t) : t :=
  mk (AccessToken i) (ClientId i) (ConnectedStatus i) (Status i) v (UserId i)
     (InstanceUrl i) (Username i).
Definition set_InstanceUrl v (i : t) : t :=
  mk (AccessToken i) (ClientId i) (ConnectedStatus i) (Status i) (OrgId i)
     (UserId i) v (Username i).
Definition set_Username v (i : t) : t :=
  mk (AccessToken i) (ClientId i) (ConnectedStatus i) (Status i) (OrgId i)
     (UserId i) (InstanceUrl i) v.

End OrgInfo.

(** ** The org object which is parsed from the script file *)

Module ScriptOrg.

(** [accessToken] and [instanceUrl] are strings, or [undefined] once
    [Object.assign] has copied a missing entry of the org display; [media] has
    no initialiser. The back-reference [script] is left out: there is one
    Script, the one of the state. *)
Record t := mk {
  name : string;
  instanceUrl : option string;
  accessToken : option string;
  media : option DATA_MEDIA_TYPE;
  isSource : bool;
  isPersonAccountEnabled : bool }.

Definition new : t := mk "" (Some "") (Some "") None false false.

Definition isConnected (o : t) : bool := Js.truthy_opt (accessToken o).

Definition isFileMedia (o : t) : bool :=
  bool_decide (media o = Some File).

Definition set_name v (o : t) : t :=
  mk v (instanceUrl o) (accessToken o) (media o) (isSource o)
     (isPersonAccountEnabled o).
Definition set_instanceUrl v (o : t) : t :=
  mk (name o) v (accessToken o) (media o) (isSource o)
     (isPersonAccountEnabled o).
Definition set_accessToken v (o : t) : t :=
  mk (name o) (instanceUrl o) v (media o) (isSource o)
     (isPersonAccountEnabled o).
Definition set_media v (o : t) : t :=
  mk (name o) (instanceUrl o) (accessToken o) v (isSource o)
     (isPersonAccountEnabled o).
Definition set_isSource v (o : t) : t :=
  mk (name o) (instanceUrl o) (accessToken o) (media o) v
     (isPersonAccountEnabled o).
Definition set_isPersonAccountEnabled v (o : t) : t :=
  mk (name o) (instanceUrl o) (accessToken o) (media o) (isSource o) v.

End ScriptOrg.

(** ** Parsed object from the script file *)

Module ScriptObject.

(** The fields that the methods below read or write; the mock-data and CSV
    options and the two SObjectDescribe are carried along unread by them and
    are left out, as is the back-reference [script]. *)
Record t := mk {
  query : string;
  deleteQuery : string;
  operation : OperationValue;
  externalId : string;
  deleteOldData : bool;
  excluded : bool;
  allRecords : bool;
  name : string;
  sourceFieldsMap : gmap string SFieldDescribe.t;
  targetFieldsMap : gmap string SFieldDescribe.t;
  initialExternalId : string;
  parsedQuery : option Query.t;
  parsedDeleteQuery : option Query.t;
  isExtraObject : bool }.

Definition new : t :=
  mk "" "" (OpEnum Readonly) "Name" false false true "" ∅ ∅ "" None None false.

Definition set_query v (o : t) : t :=
  mk v (deleteQuery o) (operation o) (externalId o) (deleteOldData o)
     (excluded o) (allRecords o) (name o) (sourceFieldsMap o)
     (targetFieldsMap o) (initialExternalId o) (parsedQuery o)
     (parsedDeleteQuery o) (isExtraObject o).
Definition set_deleteQuery v (o : t) : t :=
  mk (query o) v (operation o) (externalId o) (deleteOldData o)
     (excluded o) (allRecords o) (name o) (sourceFieldsMap o)
     (targetFieldsMap o) (initialExternalId o) (parsedQuery o)
     (parsedDeleteQuery o) (isExtraObject o).
Definition set_operation v (o : t) : t :=
  mk (query o) (deleteQuery o) v (externalId o) (deleteOldData o)
     (excluded o) (allRecords o) (name o) (sourceFieldsMap o)
     (targetFieldsMap o) (initialExternalId o) (parsedQuery o)
     (parsedDeleteQuery o) (isExtraObject o).
Definition set_externalId v (o : t) : t :=
  mk (query o) (deleteQuery o) (operation o) v (deleteOldData o)
     (excluded o) (allRecords o) (name o) (sourceFieldsMap o)
     (targetFieldsMap o) (initialExternalId o) (parsedQuery o)
     (parsedDeleteQuery o) (isExtraObject o).
Definition set_deleteOldData v (o : t) : t :=
  mk (query o) (deleteQuery o) (operation o) (externalId o) v
     (excluded o) (allRecords o) (name o) (sourceFieldsMap o)
     (targetFieldsMap o) (initialExternalId o) (parsedQuery o)
     (parsedDeleteQuery o) (isExtraObject o).
Definition set_allRecords v (o : t) : t :=
  mk (query o) (deleteQuery o) (operation o) (externalId o) (deleteOldData o)
     (excluded o) v (name o) (sourceFieldsMap o)
     (targetFieldsMap o) (initialExternalId o) (parsedQuery o)
     (parsedDeleteQuery o) (isExtraObject o).
Definition set_name v (o : t) : t :=
  mk (query o) (deleteQuery o) (operation o) (externalId o) (deleteOldData o)
     (excluded o) (allRecords o) v (sourceFieldsMap o)
     (targetFieldsMap o) (initialExternalId o) (parsedQuery o)
     (parsedDeleteQuery o) (isExtraObject o).
Definition set_initialExternalId v (o : t) : t :=
  mk (query o) (deleteQuery o) (operation o) (externalId o) (deleteOldData o)
     (excluded o) (allRecords o) (name o) (sourceFieldsMap o)
     (targetFieldsMap o) v (parsedQuery o)
     (parsedDeleteQuery o) (isExtraObject o).
Definition set_parsedQuery v (o : t) : t :=
  mk (query o) (deleteQuery o) (operation o) (externalId o) (deleteOldData o)
     (excluded o) (allRecords o) (name o) (sourceFieldsMap o)
     (targetFieldsMap o) (initialExternalId o) v
     (parsedDeleteQuery o) (isExtraObject o).
Definition set_parsedDeleteQuery v (o : t) : t :=
  mk (query o) (deleteQuery o) (operation o) (externalId o) (deleteOldData o)
     (excluded o) (allRecords o) (name o) (sourceFieldsMap o)
     (targetFieldsMap o) (initialExternalId o) (parsedQuery o)
     v (isExtraObject o).
Definition set_isExtraObject v (o : t) : t :=
  mk (query o) (deleteQuery o) (operation o) (externalId o) (deleteOldData o)
     (excluded o) (allRecords o) (name o) (sourceFieldsMap o)
     (targetFieldsMap o) (initialExternalId o) (parsedQuery o)
     (parsedDeleteQuery o) v.

(** [get fieldsInQuery]: the property [field] of every entry of the parsed
    query, [None] where an entry has none. *)
Definition fieldsInQuery (o : t) : list (option string) :=
  match parsedQuery o with
  | None => []
  | Some q => map field_of (Query.fields q)
  end.

Definition hasRecordTypeIdField (o : t) : bool :=
  existsb (fun x => Js.eq_opt x "RecordTypeId") (fieldsInQuery o).

Definition isSpecialObject (o : t) : bool :=
  bool_decide (name o ∈ ["Group"; "User"; "RecordType"]).

(** [get isLimitedQuery], as a truth value: a parsed query with a positive
    limit or with a where clause. *)
Definition isLimitedQuery (o : t) : bool :=
  match parsedQuery o with
  | None => false
  | Some q =>
      match Query.limit q with
      | Some n => (0 <? n)%Z
      | None => false
      end
      || bool_decide (is_Some (Query.where_ q))
  end.

End ScriptObject.

(** ** The script object which is parsed from the script file *)

Module Script.

(** [orgs] and [objects] hold references into the stores of the state;
    [sourceOrg] and [targetOrg] are [undefined] until [setupAsync] assigns
    them. The numeric options (polling interval, bulk thresholds) and the
    flags that [setupAsync] does not read are left out. *)
Record t := mk {
  orgs : list nat;
  objects : list nat;
  apiVersion : string;
  sourceOrg : option nat;
  targetOrg : option nat;
  basePath : string;
  objectsMap : gmap string nat }.

Definition set_objects v (s : t) : t :=
  mk (orgs s) v (apiVersion s) (sourceOrg s) (targetOrg s) (basePath s)
     (objectsMap s).
Definition set_apiVersion v (s : t) : t :=
  mk (orgs s) (objects s) v (sourceOrg s) (targetOrg s) (basePath s)
     (objectsMap s).
Definition set_sourceOrg v (s : t) : t :=
  mk (orgs s) (objects s) (apiVersion s) v (targetOrg s) (basePath s)
     (objectsMap s).
Definition set_targetOrg v (s : t) : t :=
  mk (orgs s) (objects s) (apiVersion s) (sourceOrg s) v (basePath s)
     (objectsMap s).
Definition set_basePath v (s : t) : t :=
  mk (orgs s) (objects s) (apiVersion s) (sourceOrg s) (targetOrg s) v
     (objectsMap s).
Definition set_objectsMap v (s : t) : t :=
  mk (orgs s) (objects s) (apiVersion s) (sourceOrg s) (targetOrg s)
     (basePath s) v.

End Script.

(** ** The state: stores of objects, the script, the trace of outside calls *)

Inductive LogLevel := infoMinimal | infoNormal | infoVerbose.

Inductive Event :=
| Log (level : LogLevel) (resource : RESOURCES) (params : list string)
| ExecSfdx (command targetusername : string)
| QueryAsync (org : ScriptOrg.t) (soql : string) (useBulkQueryApi : bool).

Record State := mkState {
  orgStore : list ScriptOrg.t;
  objectStore : list ScriptObject.t;
  script : Script.t;
  trace : list Event }.

Inductive Result (A : Type) :=
| Ok (a : A)
| Throw (e : Error).
Arguments Ok {A} a.
Arguments Throw {A} e.

(** A computation reads and writes the state and returns or throws; the state
    written before a throw stays written. *)
Definition M (A : Type) : Type := State -> Result A * State.

#[global] Instance M_ret : MRet M := fun A a st => (Ok a, st).

#[global] Instance M_bind : MBind M := fun A B k m st =>
  match m st with
  | (Ok a, st') => k a st'
  | (Throw e, st') => (Throw e, st')
  end.

Definition throw {A} (e : Error) : M A := fun st => (Throw e, st).

Definition getScript : M Script.t := fun st => (Ok (script st), st).

Definition modifyScript (f : Script.t -> Script.t) : M unit := fun st =>
  (Ok tt, mkState (orgStore st) (objectStore st) (f (script st)) (trace st)).

(** Reading through a reference. The methods are handed references of
    objects of the store; a reference of none reads as a fresh object. *)
Definition objectAt (st : State) (r : nat) : ScriptObject.t :=
  default ScriptObject.new (objectStore st !! r).

Definition orgAt (st : State) (r : nat) : ScriptOrg.t :=
  default ScriptOrg.new (orgStore st !! r).

Definition getObject (r : nat) : M ScriptObject.t := fun st =>
  (Ok (objectAt st r), st).

Definition putObject (r : nat) (o : ScriptObject.t) : M unit := fun st =>
  (Ok tt, mkState (orgStore st) (<[r := o]> (objectStore st)) (script st)
                  (trace st)).

Definition getOrg (r : nat) : M ScriptOrg.t := fun st => (Ok (orgAt st r), st).

Definition putOrg (r : nat) (o : ScriptOrg.t) : M unit := fun st =>
  (Ok tt, mkState (<[r := o]> (orgStore st)) (objectStore st) (script st)
                  (trace st)).

(** [new ScriptObject()] and [new ScriptOrg()]: a fresh entry of the store. *)
Definition newObject : M nat := fun st =>
  (Ok (length (objectStore st)),
   mkState (orgStore st) (objectStore st ++ [ScriptObject.new]) (script st)
           (trace st)).

Definition newOrg : M nat := fun st =>
  (Ok (length (orgStore st)),
   mkState (orgStore st ++ [ScriptOrg.new]) (objectStore st) (script st)
           (trace st)).

Definition emit (e : Event) : M unit := fun st =>
  (Ok tt, mkState (orgStore st) (objectStore st) (script st) (trace st ++ [e])).

Definition getTrace : M (list Event) := fun st => (Ok (trace st), st).

Definition log (level : LogLevel) (resource : RESOURCES)
    (params : list string) : M unit :=
  emit (Log level resource params).

(** [for (...) body(x)] over a list that the body does not change. *)
Fixpoint forEach {A} (l : list A) (body : A -> M unit) : M unit :=
  match l with
  | [] => mret tt
  | x :: l' => body x;; forEach l' body
  end.

(** ** The methods *)

Section Methods.

(** The parser and the composer of soql-parser-js: [parseQuery] returns the
    AST or throws (the text of what it throws is on the right). *)
Variable parseQuery : string -> Query.t + string.
Variable composeQuery : Query.t -> string.

(** [text == OPERATION.X] for a text: JavaScript converts the text to a number
    and compares it with the numeric value of the member, which
    components/statics declares. It is false for every text that is not a
    numeric literal, a member's name among them. *)
Variable text_eq_member : string -> OPERATION -> bool.

(** [CONSTANTS.NOT_SUPPORTED_OBJECTS], of components/statics. *)
Variable NOT_SUPPORTED_OBJECTS : list string.

(** The outside: [CommonUtils.execSfdx(command, targetusername)] returns the
    output of the command, [ApiSf.queryAsync(soql, useBulkQueryApi)] resolves
    ([true]) or rejects ([false]). Both may depend on all that happened
    before, the trace. *)
Variable execSfdx : list Event -> string -> string -> string.
Variable queryAsync : list Event -> ScriptOrg.t -> string -> bool -> bool.

(** [v == OPERATION.X]. *)
Definition operation_eq (v : OperationValue) (o : OPERATION) : bool :=
  match v with
  | OpEnum o' => bool_decide (o' = o)
  | OpText s => text_eq_member s o
  | OpUndefined => false
  end.

(** *** ScriptObject *)

(** One entry of the [map] of [get fieldsToUpdate]: the name, or [null]. *)
Definition fieldToUpdate (o : ScriptObject.t) (x : FieldType) : option string :=
  match field_of x with
  | None => None
  | Some name =>
      (* targetFieldsMap.get(name) && sourceFieldsMap.get(name) *)
      let describe :=
        match ScriptObject.targetFieldsMap o !! name with
        | None => None
        | Some _ => ScriptObject.sourceFieldsMap o !! name
        end in
      match describe with
      | None => None
      | Some d => if SFieldDescribe.isReadonly d then None else Some name
      end
  end.

Definition fieldsToUpdate (o : ScriptObject.t) : list string :=
  match ScriptObject.parsedQuery o with
  | None => []
  | Some q =>
      if bool_decide (size (ScriptObject.sourceFieldsMap o) = 0)
         || operation_eq (ScriptObject.operation o) Readonly
      then []
      else
        (* .filter(x => !!x): drops null and the empty name *)
        filter (fun n => Js.truthy n = true)
               (omap (fieldToUpdate o) (Query.fields q))
  end.

(** [this.script.objectsMap.set(name, this)]. *)
Definition registerObject (name : string) (this : nat) : M unit :=
  modifyScript (fun s =>
    Script.set_objectsMap (<[name := this]> (Script.objectsMap s)) s).

(** The head of [setup], from "Initialize object" to "Always set explicit
    externalId to 'Id' on Insert operation". *)
Definition initialize (o : ScriptObject.t) : ScriptObject.t :=
  (* Initialize object *)
  let o := ScriptObject.set_initialExternalId (ScriptObject.externalId o) o in
  (* Fix operation value *)
  let o := match ScriptObject.operation o with
           | OpText s => ScriptObject.set_operation (OPERATION_index s) o
           | _ => o
           end in
  (* Always set explicit externalId to 'Id' on Insert operation *)
  if operation_eq (ScriptObject.operation o) Insert
  then ScriptObject.set_externalId "Id" o else o.

(** The body of the first [try] once [parseQuery] has returned [q], and the
    assignments of "Update object". *)
Definition applyQuery (q : Query.t) (o : ScriptObject.t) : ScriptObject.t :=
  let q := Query.set_fields (CommonUtils.distinctArray (Query.fields q)) q in
  let '(q, o) :=
    if operation_eq (ScriptObject.operation o) Delete
    then (Query.set_fields [getComposedField "Id"] q,
          ScriptObject.set_deleteOldData true o)
    else (q, o) in
  (* Add record Id field to each query *)
  let q := if existsb (fun x => Js.eq_opt x "Id") (map field_of (Query.fields q))
           then q
           else Query.set_fields (Query.fields q ++ [getComposedField "Id"]) q in
  let o := ScriptObject.set_parsedQuery (Some q) o in
  (* Update object *)
  let o := ScriptObject.set_query (composeQuery q) o in
  ScriptObject.set_name (Query.sObject q) o.

(** The text that the second [try] parses. *)
Definition deleteQueryBase (o : ScriptObject.t) : string :=
  if Js.truthy (ScriptObject.deleteQuery o)
  then ScriptObject.deleteQuery o
  else ScriptObject.query o.

(** The predicate joined to the delete query of Contact when the source org
    has person accounts. *)
Definition excludePersonAccounts (sourceOrg : ScriptOrg.t)
    (o : ScriptObject.t) (dq : Query.t) : Query.t :=
  if ScriptOrg.isPersonAccountEnabled sourceOrg
     && String.eqb (ScriptObject.name o) "Contact"
  then Query.set_where
         (Some (CommonUtils.composeWhereClause (Query.where_ dq)
                  "IsPersonAccount" (ValueOne "false")
                  (Some "=") (Some "BOOLEAN") (Some "AND")))
         dq
  else dq.

Definition setup (this : nat) : M unit :=
  o ← getObject this;
  let o := initialize o in
  (* Parse query string *)
  match parseQuery (ScriptObject.query o) with
  | inr ex =>
      putObject this o;;
      throw (CommandInitializationError MalformedQuery
               [ScriptObject.name o; ScriptObject.query o; ex])
  | inl q =>
      let o := applyQuery q o in
      putObject this o;;
      registerObject (ScriptObject.name o) this;;
      (* Parse delete query string *)
      if ScriptObject.deleteOldData o then
        match parseQuery (deleteQueryBase o) with
        | inr ex =>
            throw (CommandInitializationError MalformedDeleteQuery
                     [ScriptObject.name o; ScriptObject.deleteQuery o; ex])
        | inl dq =>
            let dq := Query.set_fields [getComposedField "Id"] dq in
            putObject this (ScriptObject.set_parsedDeleteQuery (Some dq) o);;
            s ← getScript;
            match Script.sourceOrg s with
            | None =>
                (* the read of [sourceOrg.isPersonAccountEnabled] throws
                   inside the try *)
                throw (CommandInitializationError MalformedDeleteQuery
                         [ScriptObject.name o; ScriptObject.deleteQuery o;
                          "TypeError"])
            | Some src =>
                sourceOrg ← getOrg src;
                let dq := excludePersonAccounts sourceOrg o dq in
                putObject this
                  (ScriptObject.set_deleteQuery (composeQuery dq)
                     (ScriptObject.set_parsedDeleteQuery (Some dq) o))
            end
        end
      else mret tt
  end.

(** *** ScriptOrg *)

(** The body of the [forEach] of [_parseForceOrgDisplayResult]: every key
    that the line starts with takes the last piece of the line. *)
Definition parseLine (output : OrgInfo.t) (line : string) : OrgInfo.t :=
  let value := Js.pop (Js.split " " line) in
  let output := if Js.startsWith "Access Token" line
                then OrgInfo.set_AccessToken value output else output in
  let output := if Js.startsWith "Client Id" line
                then OrgInfo.set_ClientId value output else output in
  let output := if Js.startsWith "Connected Status" line
                then OrgInfo.set_ConnectedStatus value output else output in
  let output := if Js.startsWith "Status" line
                then OrgInfo.set_Status value output else output in
  let output := if Js.startsWith "Id" line
                then OrgInfo.set_OrgId value output else output in
  let output := if Js.startsWith "Instance Url" line
                then OrgInfo.set_InstanceUrl value output else output in
  let output := if Js.startsWith "Username" line
                then OrgInfo.set_Username value output else output in
  output.

(** [None] is the [null] returned for an empty command result. *)
Definition _parseForceOrgDisplayResult (commandResult : string)
  : option OrgInfo.t :=
  if negb (Js.truthy commandResult) then None
  else Some (fold_left parseLine (Js.split "010" commandResult) OrgInfo.new).

(** [apiSf.queryAsync(soql, useBulkQueryApi)] awaited inside a try: whether
    it resolved. *)
Definition tryQuery (this : nat) (soql : string) (useBulkQueryApi : bool)
  : M bool :=
  org ← getOrg this;
  tr ← getTrace;
  emit (QueryAsync org soql useBulkQueryApi);;
  mret (queryAsync tr org soql useBulkQueryApi).

Definition _validateAccessTokenAsync (this : nat) : M unit :=
  org ← getOrg this;
  if negb (ScriptOrg.isFileMedia org) then
    (* Validate access token *)
    ok ← tryQuery this "SELECT Id FROM Account LIMIT 1" false;
    if negb ok then
      throw (CommandInitializationError accessToOrgExpired [ScriptOrg.name org])
    else
      (* Check person account availability *)
      ok ← tryQuery this "SELECT IsPersonAccount FROM Account LIMIT 1" false;
      putOrg this (ScriptOrg.set_isPersonAccountEnabled ok org)
  else mret tt.

Definition _setupConnection (this : nat) : M unit :=
  org ← getOrg this;
  if negb (ScriptOrg.isFileMedia org) then
    (if negb (ScriptOrg.isConnected org) then
       (* Connect with SFDX *)
       log infoNormal tryingToConnectCLI [ScriptOrg.name org];;
       tr ← getTrace;
       emit (ExecSfdx "force:org:display" (ScriptOrg.name org));;
       let processResult := execSfdx tr "force:org:display" (ScriptOrg.name org) in
       match _parseForceOrgDisplayResult processResult with
       | None => throw (TypeError "Cannot read property 'isConnected' of null")
       | Some orgInfo =>
           if negb (OrgInfo.isConnected orgInfo) then
             throw (CommandInitializationError tryingToConnectCLIFailed
                      [ScriptOrg.name org])
           else
             putOrg this
               (ScriptOrg.set_instanceUrl (OrgInfo.InstanceUrl orgInfo)
                  (ScriptOrg.set_accessToken (OrgInfo.AccessToken orgInfo) org))
       end
     else mret tt);;
    (* Validate connection and check person account availability *)
    _validateAccessTokenAsync this;;
    log infoNormal successfullyConnected [ScriptOrg.name org]
  else mret tt.

Definition ScriptOrg_setupAsync (this : nat) : M unit :=
  (* Setup and verify org connection *)
  _setupConnection this.

(** *** Script *)

(** [this.orgs.filter(x => x.name == username)[0] || new ScriptOrg()]. *)
Definition findOrg (username : string) : M nat := fun st =>
  match filter (fun r => String.eqb (ScriptOrg.name (orgAt st r)) username = true)
               (Script.orgs (script st)) with
  | r :: _ => (Ok r, st)
  | [] => newOrg st
  end.

(** The callback of the first [filter] of [setupAsync]. *)
Definition included (o : ScriptObject.t) : bool :=
  negb (ScriptObject.excluded o)
  || operation_eq (ScriptObject.operation o) Readonly.

Fixpoint removeExcluded (l : list nat) : M (list nat) :=
  match l with
  | [] => mret []
  | r :: l' =>
      object ← getObject r;
      (if included object then mret tt
       else log infoVerbose objectWillBeExcluded [ScriptObject.name object]);;
      rest ← removeExcluded l';
      mret (if included object then r :: rest else rest)
  end.

Definition mediaOf (username : string) : DATA_MEDIA_TYPE :=
  if String.eqb (Js.toLowerCase username) "csvfile" then File else Org.

Definition supported (st : State) (r : nat) : bool :=
  negb (bool_decide (ScriptObject.name (objectAt st r) ∈ NOT_SUPPORTED_OBJECTS)).

Definition objectsWithRecordTypeFields (st : State) (l : list nat)
  : list string :=
  map (fun r => ScriptObject.name (objectAt st r))
      (filter (fun r => ScriptObject.hasRecordTypeIdField (objectAt st r) = true) l).

Definition getState : M State := fun st => (Ok st, st).

(** The object literal that [Object.assign] copies over the new
    ScriptObject. *)
Definition assignRecordType (o : ScriptObject.t) : ScriptObject.t :=
  ScriptObject.set_operation (OpEnum Readonly)
    (ScriptObject.set_query "SELECT Id FROM RecordType"
       (ScriptObject.set_allRecords true
          (ScriptObject.set_isExtraObject true
             (ScriptObject.set_externalId "DeveloperName"
                (ScriptObject.set_name "RecordType" o))))).

(** The where clause and the order that [setupAsync] gives the query of the
    RecordType object. *)
Definition restrictToObjects (names : list string) (q : Query.t) : Query.t :=
  let q := Query.set_where
             (Some (CommonUtils.composeWhereClause (Query.where_ q)
                      "SobjectType" (ValueList names) None None None))
             q in
  Query.set_orderBy (Some (mkOrderBy "SobjectType" "ASC")) q.

(** The tail of [setupAsync], from "Remove unnecessary objects" on;
    [objects] is [this.objects]. *)
Definition addExtraObjects (objects : list nat) : M unit :=
  (* Remove unnecessary objects *)
  st ← getState;
  let objects := filter (fun r => supported st r = true) objects in
  modifyScript (Script.set_objects objects);;
  (* Add extra objects *)
  (* -- Add RecordType object *)
  let names := objectsWithRecordTypeFields st objects in
  if bool_decide (0 < length names) then
    object ← newObject;
    modifyScript (Script.set_objects (objects ++ [object]));;
    o ← getObject object;
    putObject object (assignRecordType o);;
    setup object;;
    o ← getObject object;
    match ScriptObject.parsedQuery o with
    | None => throw (TypeError "Cannot read property 'where' of undefined")
    | Some q =>
        let q := restrictToObjects names q in
        putObject object
          (ScriptObject.set_query (composeQuery q)
             (ScriptObject.set_parsedQuery (Some q) o))
    end
  else mret tt.

Definition setupAsync (sourceUsername targetUsername basePath apiVersion : string)
  : M unit :=
  (* Initialize script *)
  modifyScript (Script.set_basePath basePath);;
  sourceOrg ← findOrg sourceUsername;
  modifyScript (Script.set_sourceOrg (Some sourceOrg));;
  targetOrg ← findOrg targetUsername;
  modifyScript (Script.set_targetOrg (Some targetOrg));;
  modifyScript (fun s => if Js.truthy apiVersion
                         then Script.set_apiVersion apiVersion s else s);;
  (* Remove excluded objects *)
  s ← getScript;
  objects ← removeExcluded (Script.objects s);
  modifyScript (Script.set_objects objects);;
  (* Check objects length *)
  if bool_decide (length objects = 0) then
    throw (CommandInitializationError noObjectsDefinedInPackageFile [])
  else
    (* Assign orgs *)
    org ← getOrg sourceOrg;
    putOrg sourceOrg
      (ScriptOrg.set_media (Some (mediaOf sourceUsername))
         (ScriptOrg.set_isSource true (ScriptOrg.set_name sourceUsername org)));;
    org ← getOrg targetOrg;
    putOrg targetOrg
      (ScriptOrg.set_media (Some (mediaOf targetUsername))
         (ScriptOrg.set_name targetUsername org));;
    (* Setup orgs *)
    ScriptOrg_setupAsync sourceOrg;;
    ScriptOrg_setupAsync targetOrg;;
    (* Setup objects *)
    forEach objects setup;;
    addExtraObjects objects.

End Methods.

(** ** A sample environment, for the examples *)

Module Sample.

(** A reader of the queries ["SELECT f, g FROM T"], the only shape the
    examples parse; everything else is a parse error. *)
Definition dropComma (s : string) : string :=
  match String.rev s with
  | String "," r => String.rev r
  | _ => s
  end.

Definition readField (s : string) : FieldType :=
  match Js.split "." s with
  | [f] => Field f
  | parts => FieldRelationship (default "" (last parts)) (removelast parts)
  end.

Fixpoint readFields (tokens : list string)
  : option (list FieldType * list string) :=
  match tokens with
  | [] => None
  | t :: rest =>
      if String.eqb t "FROM" then Some ([], rest)
      else match readFields rest with
           | Some (fs, rest') => Some (readField (dropComma t) :: fs, rest')
           | None => None
           end
  end.

Definition parseQuery (s : string) : Query.t + string :=
  match Js.split " " s with
  | "SELECT" :: tokens =>
      match readFields tokens with
      | Some (f :: fs, [sObject]) =>
          inl (Query.mk (f :: fs) sObject None None None)
      | _ => inr "unexpected token"
      end
  | _ => inr "SELECT expected"
  end.

Definition writeField (x : FieldType) : string :=
  match x with
  | Field f => f
  | FieldRelationship f rs => String.concat "." (rs ++ [f])
  | FieldFunctionExpression raw => raw
  end.

Definition writeCondition (c : Condition) : string :=
  cond_field c ++ " " ++ default "IN" (cond_operator c) ++ " " ++
  match cond_value c with
  | ValueList vs => "(" ++ String.concat ", " vs ++ ")"
  | ValueOne v => v
  end.

Fixpoint writeWhere (w : WhereClause) : string :=
  match w with
  | WhereLeft c => writeCondition c
  | WhereJoin c op w' =>
      writeCondition c ++ " " ++ default "OR" op ++ " " ++ writeWhere w'
  end.

Definition composeQuery (q : Query.t) : string :=
  "SELECT " ++ String.concat ", " (map writeField (Query.fields q)) ++
  " FROM " ++ Query.sObject q ++
  match Query.where_ q with
  | Some w => " WHERE " ++ writeWhere w
  | None => ""
  end ++
  match Query.orderBy q with
  | Some ob => " ORDER BY " ++ order_field ob ++ " " ++ order_order ob
  | None => ""
  end.

(** The texts of the examples are names, not numeric literals. *)
Definition text_eq_member (s : string) (o : OPERATION) : bool := false.

Definition NOT_SUPPORTED_OBJECTS : list string := ["Profile"].

Definition newline : string := String "010" EmptyString.

(** An sfdx that knows one org, "dev", and prints nothing for the others. *)
Definition execSfdx (tr : list Event) (command targetusername : string)
  : string :=
  if String.eqb targetusername "dev" then
    "Access Token 00Dxx!AQ" ++ newline ++
    "Connected Status Connected" ++ newline ++
    "Instance Url https://dev.example.com"
  else "".

(** An org that answers every query but the person-account probe. *)
Definition queryAsync (tr : list Event) (org : ScriptOrg.t) (soql : string)
    (useBulkQueryApi : bool) : bool :=
  negb (String.eqb soql "SELECT IsPersonAccount FROM Account LIMIT 1").

(** A script as deserialised: its orgs and objects fill the stores in
    order. *)
Definition init (orgs : list ScriptOrg.t) (objects : list ScriptObject.t)
  : State :=
  mkState orgs objects
    (Script.mk (seq 0 (length orgs)) (seq 0 (length objects)) "49.0" None None
               "" ∅)
    [].

Definition object (query : string) (operation : OperationValue)
  : ScriptObject.t :=
  ScriptObject.set_operation operation
    (ScriptObject.set_query query ScriptObject.new).

(** A field that can be created, and the same field as a formula. *)
Definition writableField (name : string) : SFieldDescribe.t :=
  SFieldDescribe.mk name "string" name true true false false false false false "".

Definition formulaField (name : string) : SFieldDescribe.t :=
  SFieldDescribe.mk name "string" name false false false false false true false "".

(** An Update of Account.Name where Name is a formula in the target org. *)
Definition accountUpdate : ScriptObject.t :=
  ScriptObject.mk "SELECT Name FROM Account" "" (OpEnum Update) "Name" false
    false true "Account"
    {[ "Name" := writableField "Name" ]} {[ "Name" := formulaField "Name" ]}
    "Name" (Some (Query.mk [Field "Name"] "Account" None None None)) None false.

(** The entries of the examples. *)
Definition accountInsert : ScriptObject.t :=
  ScriptObject.set_operation (OpEnum Insert)
    (ScriptObject.set_query "SELECT Name FROM Account"
       (ScriptObject.set_name "Account" ScriptObject.new)).

Definition accountDelete : ScriptObject.t :=
  object "SELECT Name, Phone FROM Account" (OpText "Delete").

Definition accountRecordTypes : ScriptObject.t :=
  object "SELECT Name, RecordTypeId FROM Account" (OpText "Upsert").

Definition contactUpdate : ScriptObject.t :=
  ScriptObject.set_deleteOldData true
    (object "SELECT Id, RecordTypeId FROM Contact" (OpText "Update")).

Definition profileInsert : ScriptObject.t :=
  object "SELECT Name FROM Profile" (OpText "Insert").

Definition excludedReadonly : ScriptObject.t :=
  ScriptObject.mk "SELECT Id FROM Account" "" (OpText "Readonly") "Name" false
    true true "" ∅ ∅ "" None None false.

(** A connected source org with person accounts, and an org that sfdx does
    not know. *)
Definition personAccountOrg : ScriptOrg.t :=
  ScriptOrg.mk "dev" (Some "https://dev.example.com") (Some "00Dxx!AQ")
               (Some Org) true true.

Definition unknownOrg : ScriptOrg.t :=
  ScriptOrg.mk "ghost" (Some "") (Some "") (Some Org) false false.

(** The state in which [setupAsync] calls [setup]: the source and the target
    org are assigned. *)
Definition compiling (source : ScriptOrg.t) (objects : list ScriptObject.t)
  : State :=
  mkState [source; ScriptOrg.new] objects
    (Script.mk [0; 1] (seq 0 (length objects)) "49.0" (Some 0) (Some 1) "" ∅)
    [].

Definition insertState : State := compiling personAccountOrg [accountInsert].
Definition deleteState : State := compiling personAccountOrg [accountDelete].
Definition contactState : State := compiling personAccountOrg [contactUpdate].
Definition labelState : State :=
  compiling personAccountOrg [ScriptObject.set_name "Customers" accountInsert].
Definition unknownOrgState : State := compiling unknownOrg [].

(** Scripts as deserialised: two entries that list RecordTypeId and one of
    an unsupported entity; and one entry, excluded and Readonly as text. *)
Definition recordTypeScript : State :=
  init [] [accountRecordTypes; contactUpdate; profileInsert].
Definition excludedScript : State := init [] [excludedReadonly].

(** The methods under the sample environment. *)
Abbreviation run_setup := (setup parseQuery composeQuery text_eq_member).

Abbreviation run_orgSetup := (ScriptOrg_setupAsync execSfdx queryAsync).

Abbreviation run_setupAsync :=
  (setupAsync parseQuery composeQuery text_eq_member NOT_SUPPORTED_OBJECTS
              execSfdx queryAsync).

End Sample.

(** * Properties *)

(** ** What a state looks like after a method *)

(** The state after [this] was overwritten in the object store. *)
Definition storeObject (this : nat) (o : ScriptObject.t) (st : State) : State :=
  mkState (orgStore st) (<[this := o]> (objectStore st)) (script st) (trace st).

(** The state after [name] was set to [this] in [objectsMap]. *)
Definition registered (name : string) (this : nat) (st : State) : State :=
  mkState (orgStore st) (objectStore st)
    (Script.set_objectsMap (<[name := this]> (Script.objectsMap (script st)))
       (script st))
    (trace st).

(** An event of the logger, as opposed to a call to sfdx or to an org. *)
Definition isLog (e : Event) : Prop :=
  match e with
  | Log _ _ _ => True
  | _ => False
  end.

(** The value that [parseLine] reads from the last line of [lines] that
    starts with [key]: the last piece of that line; [None] without such a
    line. *)
Definition lastValue (key : string) (lines : list string) : option string :=
  match last (filter (fun l => Js.startsWith key l = true) lines) with
  | Some line => Js.pop (Js.split " " line)
  | None => None
  end.

(** The part of [setupAsync] after the check of the objects length, from
    "Assign orgs" on, for the references it holds at that point. *)
Definition assignAndSetup (parseQuery : string -> Query.t + string)
    (composeQuery : Query.t -> string)
    (text_eq_member : string -> OPERATION -> bool)
    (NOT_SUPPORTED_OBJECTS : list string)
    (execSfdx : list Event -> string -> string -> string)
    (queryAsync : list Event -> ScriptOrg.t -> string -> bool -> bool)
    (sourceUsername targetUsername : string) (sourceOrg targetOrg : nat)
    (objects : list nat) : M unit :=
  org ← getOrg sourceOrg;
  putOrg sourceOrg
    (ScriptOrg.set_media (Some (mediaOf sourceUsername))
       (ScriptOrg.set_isSource true (ScriptOrg.set_name sourceUsername org)));;
  org ← getOrg targetOrg;
  putOrg targetOrg
    (ScriptOrg.set_media (Some (mediaOf targetUsername))
       (ScriptOrg.set_name targetUsername org));;
  ScriptOrg_setupAsync execSfdx queryAsync sourceOrg;;
  ScriptOrg_setupAsync execSfdx queryAsync targetOrg;;
  forEach objects (setup parseQuery composeQuery text_eq_member);;
  addExtraObjects parseQuery composeQuery text_eq_member NOT_SUPPORTED_OBJECTS
                  objects.

(** The script after the head of [setupAsync]: the base path, the two orgs,
    the api version and the filtered objects are assigned. *)
Definition initialized (basePath apiVersion : string) (sourceOrg targetOrg : nat)
    (objects : list nat) (s : Script.t) : Script.t :=
  Script.mk (Script.orgs s) objects
    (if Js.truthy apiVersion then apiVersion else Script.apiVersion s)
    (Some sourceOrg) (Some targetOrg) basePath (Script.objectsMap s).

(** A compiled plan: it has a parsed primary query that lists "Id" and no
    name twice, its name is the entity of that query, its query text is the
    composition of that query, and its operation is no longer a text. *)
Definition compiled (composeQuery : Query.t -> string) (o : ScriptObject.t)
  : Prop :=
  exists q,
    ScriptObject.parsedQuery o = Some q /\
    Some "Id" ∈ map field_of (Query.fields q) /\
    NoDup (map field_of (Query.fields q)) /\
    ScriptObject.name o = Query.sObject q /\
    ScriptObject.query o = composeQuery q /\
    (forall s, ScriptObject.operation o <> OpText s).

(** The state after "Assign orgs": the name, the side and the media are
    written to the source org, then the name and the media to the target
    org, which reads the source org's writes when the two are one object. *)
Definition assigned (sourceUsername targetUsername : string)
    (sourceOrg targetOrg : nat) (st : State) : State :=
  let st1 :=
    mkState
      (<[sourceOrg :=
           ScriptOrg.set_media (Some (mediaOf sourceUsername))
             (ScriptOrg.set_isSource true
                (ScriptOrg.set_name sourceUsername (orgAt st sourceOrg)))]>
         (orgStore st))
      (objectStore st) (script st) (trace st) in
  mkState
    (<[targetOrg :=
         ScriptOrg.set_media (Some (mediaOf targetUsername))
           (ScriptOrg.set_name targetUsername (orgAt st1 targetOrg))]>
       (orgStore st1))
    (objectStore st) (script st) (trace st).

(** The events [setupAsync] logs for the entries it drops. *)
Definition isExclusionLog (e : Event) : Prop :=
  exists params, e = Log infoVerbose objectWillBeExcluded params.

(** The failures of the connection of an org, and those of the queries of
    a plan. *)
Definition isConnectionError (e : Error) : Prop :=
  e = TypeError "Cannot read property 'isConnected' of null" \/
  exists name,
    e = CommandInitializationError tryingToConnectCLIFailed [name] \/
    e = CommandInitializationError accessToOrgExpired [name].

Definition isQueryError (e : Error) : Prop :=
  exists params,
    e = CommandInitializationError MalformedQuery params \/
    e = CommandInitializationError MalformedDeleteQuery params.

(** Two orgs with the same name, media and side. *)
Definition sameEndpoint (a b : ScriptOrg.t) : Prop :=
  ScriptOrg.name a = ScriptOrg.name b /\
  ScriptOrg.media a = ScriptOrg.media b /\
  ScriptOrg.isSource a = ScriptOrg.isSource b.

(** Two scripts with the same orgs, endpoints, base path and api version. *)
Definition sameSettings (a b : Script.t) : Prop :=
  Script.orgs a = Script.orgs b /\
  Script.sourceOrg a = Script.sourceOrg b /\
  Script.targetOrg a = Script.targetOrg b /\
  Script.basePath a = Script.basePath b /\
  Script.apiVersion a = Script.apiVersion b.

(** ** More examples under the sample environment *)

Module Cases.


Definition accountTwice : ScriptObject.t :=
  Sample.object "SELECT Name, Name FROM Account" (OpText "Update").

Definition accountBroken : ScriptObject.t :=
  ScriptObject.set_name "Customers"
    (Sample.object "FROM Account" (OpText "Update")).

Definition twiceState : State :=
  Sample.compiling Sample.personAccountOrg [accountTwice].
Definition brokenState : State :=
  Sample.compiling Sample.personAccountOrg [accountBroken].
Definition recordTypesState : State :=
  Sample.compiling Sample.personAccountOrg [Sample.accountRecordTypes].

(** The org "dev" before it is connected, and the org display that sfdx
    prints for it, parsed. *)
Definition devOrg : ScriptOrg.t :=
  ScriptOrg.mk "dev" (Some "") (Some "") (Some Org) true false.

Definition devState : State := Sample.compiling devOrg [].

Definition devInfo : OrgInfo.t :=
  OrgInfo.mk (Some "00Dxx!AQ") None (Some "Connected") None None None
             (Some "https://dev.example.com") None.

End Cases.

Section Properties.

Context (parseQuery : string -> Query.t + string)
        (composeQuery : Query.t -> string)
        (text_eq_member : string -> OPERATION -> bool)
        (NOT_SUPPORTED_OBJECTS : list string)
        (execSfdx : list Event -> string -> string -> string)
        (queryAsync : list Event -> ScriptOrg.t -> string -> bool -> bool).

Local Abbreviation operation_is := (operation_eq text_eq_member).
Local Abbreviation init_object := (initialize text_eq_member).
Local Abbreviation apply_query := (applyQuery composeQuery text_eq_member).
Local Abbreviation object_setup := (setup parseQuery composeQuery text_eq_member).
Local Abbreviation org_setup := (ScriptOrg_setupAsync execSfdx queryAsync).
Local Abbreviation add_extra :=
  (addExtraObjects parseQuery composeQuery text_eq_member NOT_SUPPORTED_OBJECTS).
Local Abbreviation script_setup :=
  (setupAsync parseQuery composeQuery text_eq_member NOT_SUPPORTED_OBJECTS
              execSfdx queryAsync).

(** Whether the describe map [m] has a descriptor for [n] that is not
    read-only. *)
Definition writableIn (m : gmap string SFieldDescribe.t) (n : string) : bool :=
  match m !! n with
  | Some d => negb (SFieldDescribe.isReadonly d)
  | None => false
  end.

(** The names of the queried fields, in the order of the query. *)
Definition queriedFields (o : ScriptObject.t) : list string :=
  omap id (ScriptObject.fieldsInQuery o).

(** The updatable fields in the words of the specification: "intersection of
    queried fields with both endpoints' non-read-only field descriptors,
    empty whenever operation is Readonly or either endpoint's describe map
    is not yet populated". *)
Definition fieldsToUpdate_spec (o : ScriptObject.t) : list string :=
  if operation_is (ScriptObject.operation o) Readonly
     || bool_decide (size (ScriptObject.sourceFieldsMap o) = 0)
     || bool_decide (size (ScriptObject.targetFieldsMap o) = 0)
  then []
  else filter (fun n => writableIn (ScriptObject.sourceFieldsMap o) n
                        && writableIn (ScriptObject.targetFieldsMap o) n = true)
              (queriedFields o).

(** What the getter asks of a queried field: a name that is not empty, some
    descriptor in the target map, a descriptor in the source map that is not
    read-only. *)
Definition updatable (o : ScriptObject.t) (n : string) : bool :=
  Js.truthy n
  && bool_decide (is_Some (ScriptObject.targetFieldsMap o !! n))
  && writableIn (ScriptObject.sourceFieldsMap o) n.

(** The entries that the first [filter] of [setupAsync] keeps. *)
Definition includedObjects (st : State) : list nat :=
  filter (fun r => included text_eq_member (objectAt st r) = true)
         (Script.objects (script st)).

(** The state with [this.objects] replaced. *)
Definition withObjects (objects : list nat) (st : State) : State :=
  mkState (orgStore st) (objectStore st)
          (Script.set_objects objects (script st)) (trace st).

(** The state in which the RecordType object has been created, pushed and
    assigned, before its [setup]. *)
Definition withRecordType (kept : list nat) (st : State) : State :=
  mkState (orgStore st)
          (objectStore st ++ [assignRecordType ScriptObject.new])
          (Script.set_objects (kept ++ [length (objectStore st)]) (script st))
          (trace st).

(** The query that [applyQuery] leaves in [parsedQuery]. *)
Definition normalized (q : Query.t) (o : ScriptObject.t) : Query.t :=
  let q := Query.set_fields (CommonUtils.distinctArray (Query.fields q)) q in
  let q := if operation_is (ScriptObject.operation o) Delete
           then Query.set_fields [getComposedField "Id"] q else q in
  if existsb (fun x => Js.eq_opt x "Id") (map field_of (Query.fields q))
  then q
  else Query.set_fields (Query.fields q ++ [getComposedField "Id"]) q.

(** The five ways through [setup], each with the result and the state it
    leaves. *)
Inductive setup_outcome (this : nat) (st : State)
  : Result unit -> State -> Prop :=
| setup_malformed_query o ex :
    o = init_object (objectAt st this) ->
    parseQuery (ScriptObject.query o) = inr ex ->
    setup_outcome this st
      (Throw (CommandInitializationError MalformedQuery
                [ScriptObject.name o; ScriptObject.query o; ex]))
      (storeObject this o st)
| setup_no_delete o q :
    parseQuery (ScriptObject.query (init_object (objectAt st this))) = inl q ->
    o = apply_query q (init_object (objectAt st this)) ->
    ScriptObject.deleteOldData o = false ->
    setup_outcome this st (Ok tt)
      (registered (ScriptObject.name o) this (storeObject this o st))
| setup_malformed_delete o q ex :
    parseQuery (ScriptObject.query (init_object (objectAt st this))) = inl q ->
    o = apply_query q (init_object (objectAt st this)) ->
    ScriptObject.deleteOldData o = true ->
    parseQuery (deleteQueryBase o) = inr ex ->
    setup_outcome this st
      (Throw (CommandInitializationError MalformedDeleteQuery
                [ScriptObject.name o; ScriptObject.deleteQuery o; ex]))
      (registered (ScriptObject.name o) this (storeObject this o st))
| setup_no_source o q dq :
    parseQuery (ScriptObject.query (init_object (objectAt st this))) = inl q ->
    o = apply_query q (init_object (objectAt st this)) ->
    ScriptObject.deleteOldData o = true ->
    parseQuery (deleteQueryBase o) = inl dq ->
    Script.sourceOrg (script st) = None ->
    setup_outcome this st
      (Throw (CommandInitializationError MalformedDeleteQuery
                [ScriptObject.name o; ScriptObject.deleteQuery o; "TypeError"]))
      (storeObject this
         (ScriptObject.set_parsedDeleteQuery
            (Some (Query.set_fields [getComposedField "Id"] dq)) o)
         (registered (ScriptObject.name o) this (storeObject this o st)))
| setup_with_delete o q dq src dq' :
    parseQuery (ScriptObject.query (init_object (objectAt st this))) = inl q ->
    o = apply_query q (init_object (objectAt st this)) ->
    ScriptObject.deleteOldData o = true ->
    parseQuery (deleteQueryBase o) = inl dq ->
    Script.sourceOrg (script st) = Some src ->
    dq' = excludePersonAccounts (orgAt st src) o
            (Query.set_fields [getComposedField "Id"] dq) ->
    setup_outcome this st (Ok tt)
      (storeObject this
         (ScriptObject.set_deleteQuery (composeQuery dq')
            (ScriptObject.set_parsedDeleteQuery (Some dq') o))
         (storeObject this
            (ScriptObject.set_parsedDeleteQuery
               (Some (Query.set_fields [getComposedField "Id"] dq)) o)
            (registered (ScriptObject.name o) this (storeObject this o st)))).

Ltac run :=
  repeat progress
    (unfold mbind, M_bind, mret, M_ret, throw, getScript, modifyScript,
       getObject, putObject, getOrg, putOrg, newObject, newOrg, emit,
       getTrace, log, registerObject, getState;
     cbn beta iota zeta delta [orgStore objectStore script trace fst snd]).

Ltac fields :=
  cbn [ScriptObject.set_query ScriptObject.set_deleteQuery
       ScriptObject.set_operation ScriptObject.set_externalId
       ScriptObject.set_deleteOldData ScriptObject.set_allRecords
       ScriptObject.set_name ScriptObject.set_initialExternalId
       ScriptObject.set_parsedQuery ScriptObject.set_parsedDeleteQuery
       ScriptObject.set_isExtraObject Query.set_fields Query.set_where
       Query.set_orderBy
       ScriptObject.query ScriptObject.deleteQuery ScriptObject.operation
       ScriptObject.externalId ScriptObject.deleteOldData
       ScriptObject.excluded ScriptObject.allRecords ScriptObject.name
       ScriptObject.sourceFieldsMap ScriptObject.targetFieldsMap
       ScriptObject.initialExternalId ScriptObject.parsedQuery
       ScriptObject.parsedDeleteQuery ScriptObject.isExtraObject
       Query.fields Query.sObject Query.where_ Query.orderBy Query.limit].

Lemma setup_run this st :
  setup_outcome this st (object_setup this st).1 (object_setup this st).2.
Proof.
  unfold setup. run.
  destruct (parseQuery _) as [q|ex] eqn:Hq; run.
  2: { eapply setup_malformed_query; eauto. }
  destruct (ScriptObject.deleteOldData _) eqn:Hd; run.
  2: { eapply setup_no_delete; eauto. }
  destruct (parseQuery (deleteQueryBase _)) as [dq|ex] eqn:Hdq; run.
  2: { eapply setup_malformed_delete; eauto. }
  cbn [Script.sourceOrg Script.set_objectsMap].
  destruct (Script.sourceOrg (script st)) as [src|] eqn:Hs; run.
  - eapply setup_with_delete; eauto.
  - eapply setup_no_source; eauto.
Qed.
Lemma setup_inv this st r st' :
  object_setup this st = (r, st') -> setup_outcome this st r st'.
Proof. intros H. pose proof (setup_run this st) as Ho. now rewrite H in Ho. Qed.

(** *** Reading the stores after a write *)

Lemma objectAt_storeObject this o st :
  this < length (objectStore st) -> objectAt (storeObject this o st) this = o.
Proof.
  intros Hlt. unfold objectAt, storeObject. cbn [objectStore].
  now rewrite list_lookup_insert_eq.
Qed.

Lemma objectAt_storeObject_ne this r o st :
  this <> r -> objectAt (storeObject this o st) r = objectAt st r.
Proof.
  intros Hne. unfold objectAt, storeObject. cbn [objectStore].
  now rewrite list_lookup_insert_ne.
Qed.

Lemma objectAt_registered n this st r :
  objectAt (registered n this st) r = objectAt st r.
Proof. reflexivity. Qed.

Lemma length_storeObject this o st :
  length (objectStore (storeObject this o st)) = length (objectStore st).
Proof. unfold storeObject. cbn [objectStore]. apply length_insert. Qed.

Lemma length_registered n this st :
  length (objectStore (registered n this st)) = length (objectStore st).
Proof. reflexivity. Qed.

Lemma objectAt_lookup st this o :
  objectStore st !! this = Some o -> objectAt st this = o.
Proof. intros H. unfold objectAt. now rewrite H. Qed.

Lemma lookup_in_store st this (o : ScriptObject.t) :
  objectStore st !! this = Some o -> this < length (objectStore st).
Proof. apply lookup_lt_Some. Qed.

(** *** The stages of [setup] *)

Lemma operation_eq_enum o o' :
  operation_is (OpEnum o) o' = bool_decide (o = o').
Proof. reflexivity. Qed.

Lemma initialize_operation o :
  ScriptObject.operation (init_object o) =
  match ScriptObject.operation o with
  | OpText s => OPERATION_index s
  | v => v
  end.
Proof.
  unfold initialize. fields.
  destruct (ScriptObject.operation o) eqn:Hop; fields; rewrite ?Hop;
    destruct (operation_eq _ _ _); now fields.
Qed.

Lemma initialize_query o :
  ScriptObject.query (init_object o) = ScriptObject.query o.
Proof.
  unfold initialize. fields.
  destruct (ScriptObject.operation o) eqn:Hop; fields; rewrite ?Hop;
    destruct (operation_eq _ _ _); now fields.
Qed.

Lemma initialize_name o :
  ScriptObject.name (init_object o) = ScriptObject.name o.
Proof.
  unfold initialize. fields.
  destruct (ScriptObject.operation o) eqn:Hop; fields; rewrite ?Hop;
    destruct (operation_eq _ _ _); now fields.
Qed.

Lemma initialize_deleteQuery o :
  ScriptObject.deleteQuery (init_object o) = ScriptObject.deleteQuery o.
Proof.
  unfold initialize. fields.
  destruct (ScriptObject.operation o) eqn:Hop; fields; rewrite ?Hop;
    destruct (operation_eq _ _ _); now fields.
Qed.

Lemma initialize_deleteOldData o :
  ScriptObject.deleteOldData (init_object o) = ScriptObject.deleteOldData o.
Proof.
  unfold initialize. fields.
  destruct (ScriptObject.operation o) eqn:Hop; fields; rewrite ?Hop;
    destruct (operation_eq _ _ _); now fields.
Qed.

Lemma initialize_externalId o :
  ScriptObject.externalId (init_object o) =
  if operation_is (ScriptObject.operation (init_object o)) Insert
  then "Id" else ScriptObject.externalId o.
Proof.
  rewrite initialize_operation. unfold initialize. fields.
  destruct (ScriptObject.operation o) eqn:Hop; fields; rewrite ?Hop;
    destruct (operation_eq _ _ _); now fields.
Qed.

Lemma applyQuery_eq q o :
  apply_query q o =
  ScriptObject.set_name (Query.sObject (normalized q o))
    (ScriptObject.set_query (composeQuery (normalized q o))
       (ScriptObject.set_parsedQuery (Some (normalized q o))
          (if operation_is (ScriptObject.operation o) Delete
           then ScriptObject.set_deleteOldData true o else o))).
Proof.
  unfold applyQuery, normalized.
  destruct (operation_eq _ _ _); fields; destruct (existsb _ _); reflexivity.
Qed.

Lemma normalized_sObject q o : Query.sObject (normalized q o) = Query.sObject q.
Proof.
  unfold normalized.
  destruct (operation_eq _ _ _); fields; destruct (existsb _ _); reflexivity.
Qed.

Lemma applyQuery_fields q o :
  ScriptObject.name (apply_query q o) = Query.sObject q /\
  ScriptObject.parsedQuery (apply_query q o) = Some (normalized q o) /\
  ScriptObject.query (apply_query q o) = composeQuery (normalized q o) /\
  ScriptObject.externalId (apply_query q o) = ScriptObject.externalId o /\
  ScriptObject.operation (apply_query q o) = ScriptObject.operation o /\
  ScriptObject.deleteQuery (apply_query q o) = ScriptObject.deleteQuery o /\
  ScriptObject.deleteOldData (apply_query q o) =
    (operation_is (ScriptObject.operation o) Delete
     || ScriptObject.deleteOldData o).
Proof.
  rewrite applyQuery_eq, <- (normalized_sObject q o).
  destruct (operation_eq _ _ _); fields; auto 10.
Qed.

(** *** The object that [setup] leaves in the store *)

Ltac store_length :=
  repeat (rewrite length_storeObject || rewrite length_registered);
  assumption.

Ltac store :=
  repeat first
    [ rewrite objectAt_registered
    | rewrite objectAt_storeObject by store_length ].

(** When the primary query does not parse, the object keeps what the head of
    [setup] assigned. *)
Lemma setup_object_malformed this st r st' ex :
  this < length (objectStore st) ->
  parseQuery (ScriptObject.query (objectAt st this)) = inr ex ->
  object_setup this st = (r, st') ->
  objectAt st' this = init_object (objectAt st this) /\
  r = Throw (CommandInitializationError MalformedQuery
               [ScriptObject.name (objectAt st this);
                ScriptObject.query (objectAt st this); ex]).
Proof.
  intros Hlt Hp H. apply setup_inv in H.
  rewrite <- initialize_query in Hp.
  destruct H as [o ex' -> Hq | o q Hq | o q ex' Hq | o q dq Hq | o q dq src dq' Hq];
    try congruence.
  store. split; [reflexivity|].
  rewrite Hp in Hq. injection Hq as <-.
  now rewrite initialize_query, initialize_name.
Qed.

(** When it parses, the object is the one of "Update object", up to the two
    fields that the delete step assigns. *)
Lemma setup_object_parsed this st r st' q :
  this < length (objectStore st) ->
  parseQuery (ScriptObject.query (objectAt st this)) = inl q ->
  object_setup this st = (r, st') ->
  exists pdq dqs,
    objectAt st' this =
    ScriptObject.set_deleteQuery dqs
      (ScriptObject.set_parsedDeleteQuery pdq
         (apply_query q (init_object (objectAt st this)))).
Proof.
  intros Hlt Hp H. apply setup_inv in H.
  rewrite <- initialize_query in Hp.
  destruct H as [o ex' -> Hq | o q' Hq -> | o q' ex' Hq ->
                | o q' dq Hq -> | o q' dq src dq' Hq ->];
    try congruence; rewrite Hp in Hq; injection Hq as <-; store.
  all: set (o := apply_query _ _); clearbody o.
  - exists (ScriptObject.parsedDeleteQuery o), (ScriptObject.deleteQuery o).
    now destruct o.
  - exists (ScriptObject.parsedDeleteQuery o), (ScriptObject.deleteQuery o).
    now destruct o.
  - exists (Some (Query.set_fields [getComposedField "Id"] dq)),
      (ScriptObject.deleteQuery o).
    now destruct o.
  - exists (Some dq'), (composeQuery dq'). now destruct o.
Qed.

(** *** The field list of the primary query *)

Lemma existsb_Id (l : list (option string)) :
  existsb (fun x => Js.eq_opt x "Id") l = true <-> Some "Id" ∈ l.
Proof.
  rewrite existsb_exists. split.
  - intros ([x|] & Hin & Heq); cbn in Heq; [|discriminate].
    apply String.eqb_eq in Heq as ->. now apply list_elem_of_In.
  - intros Hin. exists (Some "Id"). split; [now apply list_elem_of_In|].
    reflexivity.
Qed.

Lemma distinct_go_subset seen l x :
  x ∈ CommonUtils.distinct_go seen l -> x ∈ l.
Proof.
  revert seen. induction l as [|y l IH]; intros seen; cbn; [easy|].
  destruct (decide _).
  - intros H. right. eauto.
  - intros [->|H]%elem_of_cons; [left|right; eauto].
Qed.

Lemma distinctArray_names l n :
  n ∈ map field_of (CommonUtils.distinctArray l) -> n ∈ map field_of l.
Proof.
  intros H. apply list_elem_of_In, in_map_iff in H as (x & <- & Hx).
  apply list_elem_of_In, in_map. apply list_elem_of_In.
  eapply distinct_go_subset. apply list_elem_of_In. exact Hx.
Qed.

Lemma normalized_has_Id q o :
  Some "Id" ∈ map field_of (Query.fields (normalized q o)).
Proof.
  unfold normalized.
  destruct (existsb _ _) eqn:He.
  - now apply existsb_Id.
  - fields. rewrite map_app. apply elem_of_app. right. cbn. left.
Qed.

Lemma normalized_delete q o :
  operation_is (ScriptObject.operation o) Delete = true ->
  Query.fields (normalized q o) = [getComposedField "Id"].
Proof. intros H. unfold normalized. rewrite H. reflexivity. Qed.

Lemma normalized_appends q o :
  operation_is (ScriptObject.operation o) Delete = false ->
  Some "Id" ∉ map field_of (Query.fields q) ->
  Query.fields (normalized q o) =
  CommonUtils.distinctArray (Query.fields q) ++ [getComposedField "Id"].
Proof.
  intros Hop Hid. unfold normalized. rewrite Hop. fields.
  destruct (existsb _ _) eqn:He; [|reflexivity].
  apply existsb_Id, distinctArray_names in He. contradiction.
Qed.



(** C2: an entry whose operation is Delete, given as the member or as its
    name, and whose [setup] returns has exactly the field list ["Id"] and
    [deleteOldData] set. *)
Theorem setup_delete_keeps_id_only this st o :
  objectStore st !! this = Some o ->
  ScriptObject.operation o = OpEnum Delete
  \/ ScriptObject.operation o = OpText "Delete" ->
  forall st', object_setup this st = (Ok tt, st') ->
    ScriptObject.fieldsInQuery (objectAt st' this) = [Some "Id"] /\
    (exists q', ScriptObject.parsedQuery (objectAt st' this) = Some q' /\
                Query.fields q' = [getComposedField "Id"]) /\
    ScriptObject.deleteOldData (objectAt st' this) = true.
Proof.
  intros Hl Hop st' H.
  pose proof (lookup_in_store _ _ _ Hl) as Hlt.
  apply objectAt_lookup in Hl. subst o.
  assert (Hd : operation_is
                 (ScriptObject.operation (init_object (objectAt st this)))
                 Delete = true).
  { rewrite initialize_operation. now destruct Hop as [-> | ->]. }
  destruct (parseQuery (ScriptObject.query (objectAt st this)))
    as [q|ex] eqn:Hp.
  2: { now destruct (setup_object_malformed _ _ _ _ _ Hlt Hp H). }
  destruct (setup_object_parsed _ _ _ _ _ Hlt Hp H) as (pdq & dqs & ->).
  destruct (applyQuery_fields q (init_object (objectAt st this)))
    as (_ & Hpq & _ & _ & _ & _ & Hdel).
  unfold ScriptObject.fieldsInQuery. fields.
  rewrite Hpq, Hdel, Hd. rewrite (normalized_delete _ _ Hd).
  split; [reflexivity|]. split; [|reflexivity].
  eexists. split; [reflexivity|]. now apply normalized_delete.
Qed.

(** C3: an entry whose operation is Insert, given as the member or as its
    name, has the external id "Id" after [setup], whatever it had before and
    however [setup] ends; and the entry named Account with the query
    "SELECT Name FROM Account" and the operation Insert compiles to the
    fields Name, Id and the external id "Id". *)
Theorem setup_insert_forces_external_id :
  (forall this st o,
     objectStore st !! this = Some o ->
     ScriptObject.operation o = OpEnum Insert
     \/ ScriptObject.operation o = OpText "Insert" ->
     forall r st', object_setup this st = (r, st') ->
       ScriptObject.externalId (objectAt st' this) = "Id" /\
       ScriptObject.operation (objectAt st' this) = OpEnum Insert) /\
  (forall this st q,
     objectStore st !! this =
       Some (ScriptObject.set_operation (OpEnum Insert)
               (ScriptObject.set_query "SELECT Name FROM Account"
                  (ScriptObject.set_name "Account" ScriptObject.new))) ->
     parseQuery "SELECT Name FROM Account" = inl q ->
     Query.fields q = [Field "Name"] ->
     exists st', object_setup this st = (Ok tt, st') /\
       ScriptObject.fieldsInQuery (objectAt st' this) = [Some "Name"; Some "Id"] /\
       ScriptObject.externalId (objectAt st' this) = "Id" /\
       ScriptObject.operation (objectAt st' this) = OpEnum Insert).
Proof.
  assert (general : forall this st o,
     objectStore st !! this = Some o ->
     ScriptObject.operation o = OpEnum Insert
     \/ ScriptObject.operation o = OpText "Insert" ->
     forall r st', object_setup this st = (r, st') ->
       ScriptObject.externalId (objectAt st' this) = "Id" /\
       ScriptObject.operation (objectAt st' this) = OpEnum Insert).
  { intros this st o Hl Hop r st' H.
    pose proof (lookup_in_store _ _ _ Hl) as Hlt.
    apply objectAt_lookup in Hl. subst o.
    assert (Hi : ScriptObject.operation (init_object (objectAt st this))
                 = OpEnum Insert).
    { rewrite initialize_operation. now destruct Hop as [-> | ->]. }
    pose proof (initialize_externalId (objectAt st this)) as He.
    rewrite Hi in He. cbn in He.
    destruct (parseQuery (ScriptObject.query (objectAt st this)))
      as [q|ex] eqn:Hp.
    - destruct (setup_object_parsed _ _ _ _ _ Hlt Hp H) as (pdq & dqs & ->).
      destruct (applyQuery_fields q (init_object (objectAt st this)))
        as (_ & _ & _ & Hext & Hopn & _).
      fields. now rewrite Hext, Hopn.
    - destruct (setup_object_malformed _ _ _ _ _ Hlt Hp H) as [-> _].
      now split. }
  split; [exact general|].
  intros this st q Hl Hp Hf.
  destruct (object_setup this st) as [r st'] eqn:H.
  pose proof (lookup_in_store _ _ _ Hl) as Hlt.
  destruct (general _ _ _ Hl (or_introl eq_refl) _ _ H) as [He Ho].
  pose proof (objectAt_lookup _ _ _ Hl) as Hat.
  assert (Hq : parseQuery (ScriptObject.query (objectAt st this)) = inl q)
    by now rewrite Hat.
  pose proof (setup_inv _ _ _ _ H) as Hout.
  destruct (setup_object_parsed _ _ _ _ _ Hlt Hq H) as (pdq & dqs & Heq).
  destruct (applyQuery_fields q (init_object (objectAt st this)))
    as (_ & Hpq & _ & _ & _ & _ & Hdel).
  assert (Hnd : ScriptObject.deleteOldData
                  (apply_query q (init_object (objectAt st this))) = false).
  { rewrite Hdel, initialize_operation, initialize_deleteOldData, Hat.
    reflexivity. }
  assert (Hnorm : Query.fields (normalized q (init_object (objectAt st this)))
                  = [Field "Name"; Field "Id"]).
  { rewrite normalized_appends.
    - now rewrite Hf.
    - now rewrite initialize_operation, Hat.
    - rewrite Hf. cbn. intros [Hc|Hc]%elem_of_cons; [discriminate|].
      now apply elem_of_nil in Hc. }
  exists st'. repeat split; try assumption.
  - rewrite <- initialize_query in Hq.
    destruct Hout; try congruence.
  - rewrite Heq. unfold ScriptObject.fieldsInQuery. fields.
    now rewrite Hpq, Hnorm.
Qed.

(** C9: once the primary query has parsed, the name of the plan is the
    [sObject] of the parsed query, whatever the label was, and [objectsMap]
    maps that name to this plan, whatever it mapped it to before; the other
    names keep their plans. *)
Theorem setup_registers_entity_name this st o q :
  objectStore st !! this = Some o ->
  parseQuery (ScriptObject.query o) = inl q ->
  forall r st', object_setup this st = (r, st') ->
    ScriptObject.name (objectAt st' this) = Query.sObject q /\
    Script.objectsMap (script st') !! Query.sObject q = Some this /\
    (forall k, k <> Query.sObject q ->
       Script.objectsMap (script st') !! k = Script.objectsMap (script st) !! k).
Proof.
  intros Hl Hp r st' H.
  pose proof (lookup_in_store _ _ _ Hl) as Hlt.
  apply objectAt_lookup in Hl. subst o.
  destruct (applyQuery_fields q (init_object (objectAt st this)))
    as (Hname & _).
  split.
  { destruct (setup_object_parsed _ _ _ _ _ Hlt Hp H) as (pdq & dqs & ->).
    now fields. }
  apply setup_inv in H. rewrite <- initialize_query in Hp.
  destruct H as [o ex' -> Hq | o q' Hq -> | o q' ex' Hq ->
                | o q' dq Hq -> | o q' dq src dq' Hq ->];
    try congruence; rewrite Hp in Hq; injection Hq as <-;
    rewrite Hname; cbn; split;
    solve [ apply lookup_insert_eq
          | intros k Hk; now apply lookup_insert_ne ].
Qed.

(** C6: a plan that leaves [setup] with [deleteOldData] set. The text parsed
    for the delete query is the explicit delete query when the entry has one,
    else the recomposed primary query. When that text does not parse, [setup]
    throws the malformed-delete-query error with the entity name and the raw
    delete query. When it parses and [setup] returns, the compiled delete
    query is the parsed one with the field list ["Id"] and, for Contact under
    a source org with person accounts, with IsPersonAccount = false joined by
    AND to its where clause; [deleteQuery] is its composition. *)
Theorem setup_compiles_delete_query this st o q :
  objectStore st !! this = Some o ->
  parseQuery (ScriptObject.query o) = inl q ->
  forall r st', object_setup this st = (r, st') ->
  ScriptObject.deleteOldData (objectAt st' this) = true ->
  (exists pq, ScriptObject.parsedQuery (objectAt st' this) = Some pq /\
              ScriptObject.query (objectAt st' this) = composeQuery pq) /\
  match parseQuery (if Js.truthy (ScriptObject.deleteQuery o)
                    then ScriptObject.deleteQuery o
                    else ScriptObject.query (objectAt st' this)) with
  | inr ex =>
      r = Throw (CommandInitializationError MalformedDeleteQuery
                   [ScriptObject.name (objectAt st' this);
                    ScriptObject.deleteQuery o; ex])
  | inl base =>
      match r with
      | Throw _ => Script.sourceOrg (script st) = None
      | Ok _ =>
          exists src dq,
            Script.sourceOrg (script st) = Some src /\
            ScriptObject.parsedDeleteQuery (objectAt st' this) = Some dq /\
            ScriptObject.deleteQuery (objectAt st' this) = composeQuery dq /\
            Query.fields dq = [getComposedField "Id"] /\
            Query.sObject dq = Query.sObject base /\
            Query.orderBy dq = Query.orderBy base /\
            Query.limit dq = Query.limit base /\
            Query.where_ dq =
              if ScriptOrg.isPersonAccountEnabled (orgAt st src)
                 && String.eqb (ScriptObject.name (objectAt st' this)) "Contact"
              then Some (CommonUtils.composeWhereClause (Query.where_ base)
                           "IsPersonAccount" (ValueOne "false")
                           (Some "=") (Some "BOOLEAN") (Some "AND"))
              else Query.where_ base
      end
  end.
Proof.
  intros Hl Hp r st' H Hdel.
  pose proof (lookup_in_store _ _ _ Hl) as Hlt.
  apply objectAt_lookup in Hl. subst o.
  destruct (applyQuery_fields q (init_object (objectAt st this)))
    as (Hname & Hpq & Hquery & _ & _ & Hdq & _).
  rewrite initialize_deleteQuery in Hdq.
  apply setup_inv in H. rewrite <- initialize_query in Hp.
  destruct H as [o ex' -> Hq | o q' Hq -> Hno | o q' ex' Hq -> Hyes Hbase
                | o q' dq Hq -> Hyes Hbase Hsrc
                | o q' dq src dq' Hq -> Hyes Hbase Hsrc ->];
    try congruence; rewrite Hp in Hq; injection Hq as <-;
    revert Hdel; store; fields; intros Hdel; try congruence.
  all: unfold deleteQueryBase in Hbase; rewrite Hdq in Hbase.
  all: split; [eauto|]; rewrite Hbase; try reflexivity; try assumption.
  - now rewrite Hdq.
  - exists src, (excludePersonAccounts (orgAt st src)
                   (apply_query q (init_object (objectAt st this)))
                   (Query.set_fields [getComposedField "Id"] dq)).
    unfold excludePersonAccounts.
    destruct (_ && _); fields; auto 10.
Qed.

(** *** The fields to update *)

Lemma isReadonly_iff d :
  SFieldDescribe.isReadonly d = true <->
  SFieldDescribe.creatable d = false \/ SFieldDescribe.isFormula d = true
  \/ SFieldDescribe.autoNumber d = true.
Proof.
  unfold SFieldDescribe.isReadonly.
  destruct (SFieldDescribe.creatable d), (SFieldDescribe.isFormula d),
    (SFieldDescribe.autoNumber d); cbn; intuition congruence.
Qed.

Lemma fieldToUpdate_eq o x :
  fieldToUpdate o x =
  match field_of x with
  | Some n =>
      if bool_decide (is_Some (ScriptObject.targetFieldsMap o !! n))
         && writableIn (ScriptObject.sourceFieldsMap o) n
      then Some n else None
  | None => None
  end.
Proof.
  unfold fieldToUpdate, writableIn.
  destruct (field_of x) as [n|]; [|reflexivity].
  destruct (ScriptObject.targetFieldsMap o !! n) as [dt|].
  - rewrite bool_decide_eq_true_2 by eauto.
    destruct (ScriptObject.sourceFieldsMap o !! n) as [ds|]; [|reflexivity].
    now destruct (SFieldDescribe.isReadonly ds).
  - rewrite bool_decide_eq_false_2 by (intros [? ?]; congruence).
    reflexivity.
Qed.

Lemma fieldToUpdate_updatable o x :
  filter (fun n => Js.truthy n = true) (option_list (fieldToUpdate o x)) =
  filter (fun n => updatable o n = true) (option_list (field_of x)).
Proof.
  rewrite fieldToUpdate_eq.
  destruct (field_of x) as [n|]; [|reflexivity].
  cbn [option_list]. rewrite (filter_cons _ n []).
  assert (Hu : updatable o n =
               Js.truthy n
               && (bool_decide (is_Some (ScriptObject.targetFieldsMap o !! n))
                   && writableIn (ScriptObject.sourceFieldsMap o) n))
    by (unfold updatable; now rewrite andb_assoc).
  rewrite Hu. destruct (_ && writableIn _ _); cbn [option_list].
  - rewrite (filter_cons _ n []), andb_true_r.
    now repeat case_decide.
  - rewrite andb_false_r. now case_decide.
Qed.

Lemma omap_option_list {A B} (f : A -> option B) (l : list A) :
  omap f l = concat (map (fun x => option_list (f x)) l).
Proof.
  induction l as [|x l IH]; [reflexivity|].
  cbn. destruct (f x); cbn; now rewrite IH.
Qed.

Lemma filter_concat {A} (P : A -> Prop) `{forall x, Decision (P x)}
    (ls : list (list A)) :
  filter P (concat ls) = concat (map (filter P) ls).
Proof.
  induction ls as [|l ls IH]; [reflexivity|].
  cbn. now rewrite filter_app, IH.
Qed.

Lemma fieldsToUpdate_filter o q :
  filter (fun n => Js.truthy n = true) (omap (fieldToUpdate o) (Query.fields q))
  = filter (fun n => updatable o n = true) (omap field_of (Query.fields q)).
Proof.
  rewrite !omap_option_list, !filter_concat, !map_map.
  f_equal. apply map_ext. intros x. apply fieldToUpdate_updatable.
Qed.

Lemma queriedFields_eq o :
  queriedFields o =
  match ScriptObject.parsedQuery o with
  | None => []
  | Some q => omap field_of (Query.fields q)
  end.
Proof.
  unfold queriedFields, ScriptObject.fieldsInQuery.
  destruct (ScriptObject.parsedQuery o) as [q|]; [|reflexivity].
  induction (Query.fields q) as [|x l IH]; [reflexivity|].
  cbn. destruct (field_of x); cbn; now rewrite IH.
Qed.

Lemma updatable_source_empty o n :
  ScriptObject.sourceFieldsMap o = ∅ -> updatable o n = false.
Proof.
  intros H. unfold updatable, writableIn. rewrite H, lookup_empty.
  apply andb_false_r.
Qed.

Lemma updatable_target_empty o n :
  ScriptObject.targetFieldsMap o = ∅ -> updatable o n = false.
Proof.
  intros H. unfold updatable. rewrite H, lookup_empty.
  rewrite bool_decide_eq_false_2 by (intros [? ?]; congruence).
  now rewrite andb_false_r.
Qed.

Lemma filter_none {A} (P : A -> Prop) `{forall x, Decision (P x)} (l : list A) :
  (forall x, ~ P x) -> filter P l = [].
Proof.
  intros HP. induction l as [|x l IH]; [reflexivity|].
  rewrite filter_cons_False; auto.
Qed.

(** C8, as the code has it: the fields to update are exactly the queried
    fields, in the order of the query, that have a name that is not empty, a
    descriptor in the target map and a descriptor in the source map that is
    not read-only, where read-only means not creatable, or formula, or
    auto-number; the list is empty when the operation is Readonly and when
    either describe map is empty. The target descriptor is not asked whether
    it is read-only. *)
Theorem fieldsToUpdate_source_writable o :
  fieldsToUpdate text_eq_member o =
    (if operation_is (ScriptObject.operation o) Readonly then []
     else filter (fun n => updatable o n = true) (queriedFields o)) /\
  (operation_is (ScriptObject.operation o) Readonly = true
   \/ ScriptObject.sourceFieldsMap o = ∅
   \/ ScriptObject.targetFieldsMap o = ∅ ->
   fieldsToUpdate text_eq_member o = []) /\
  (forall d, SFieldDescribe.isReadonly d =
             negb (SFieldDescribe.creatable d) || SFieldDescribe.isFormula d
             || SFieldDescribe.autoNumber d).
Proof.
  assert (Heq : fieldsToUpdate text_eq_member o =
    (if operation_is (ScriptObject.operation o) Readonly then []
     else filter (fun n => updatable o n = true) (queriedFields o))).
  { unfold fieldsToUpdate. rewrite queriedFields_eq.
    destruct (ScriptObject.parsedQuery o) as [q|].
    2: { now destruct (operation_eq _ _ _). }
    destruct (operation_eq _ _ _); [now rewrite orb_true_r|].
    rewrite orb_false_r, <- fieldsToUpdate_filter.
    case_bool_decide as Hs; [|reflexivity].
    apply map_size_empty_iff in Hs.
    rewrite fieldsToUpdate_filter. symmetry. apply filter_none.
    intros n. rewrite updatable_source_empty by assumption. discriminate. }
  split; [exact Heq|]. split.
  - rewrite Heq. intros [-> | [Hs | Ht]]; [reflexivity| |];
      destruct (operation_eq _ _ _); try reflexivity; apply filter_none;
      intros n.
    + rewrite updatable_source_empty by assumption. discriminate.
    + rewrite updatable_target_empty by assumption. discriminate.
  - intros d. unfold SFieldDescribe.isReadonly.
    now destruct (SFieldDescribe.creatable d), (SFieldDescribe.isFormula d),
      (SFieldDescribe.autoNumber d).
Qed.

(** *** ScriptOrg.setupAsync *)

Lemma orgAt_lookup st this org :
  orgStore st !! this = Some org -> orgAt st this = org.
Proof. intros H. unfold orgAt. now rewrite H. Qed.

(** The org setup leaves the script and the objects alone. *)
Lemma org_setup_frame this st r st' :
  org_setup this st = (r, st') ->
  objectStore st' = objectStore st /\ script st' = script st /\
  length (orgStore st') = length (orgStore st).
Proof.
  unfold ScriptOrg_setupAsync, _setupConnection, _validateAccessTokenAsync,
    tryQuery. run.
  repeat match goal with
         | |- context [if negb ?b then _ else _] =>
             destruct b; cbn [negb]; run
         | |- context [match _parseForceOrgDisplayResult ?x with _ => _ end] =>
             destruct (_parseForceOrgDisplayResult x); run
         end;
    intros [= <- <-]; cbn [orgStore objectStore script];
    rewrite ?length_insert; auto.
Qed.


(** A live org that is not connected, and an org display with text but with
    no connected indicator: the connection error. *)
Lemma org_setup_no_indicator this st info :
  ScriptOrg.isFileMedia (orgAt st this) = false ->
  ScriptOrg.isConnected (orgAt st this) = false ->
  _parseForceOrgDisplayResult
    (execSfdx (trace st ++ [Log infoNormal tryingToConnectCLI
                                [ScriptOrg.name (orgAt st this)]])
              "force:org:display" (ScriptOrg.name (orgAt st this)))
    = Some info ->
  OrgInfo.isConnected info = false ->
  (org_setup this st).1 =
  Throw (CommandInitializationError tryingToConnectCLIFailed
           [ScriptOrg.name (orgAt st this)]).
Proof.
  intros Hf Hc Hp Hi. unfold ScriptOrg_setupAsync, _setupConnection. run.
  rewrite Hf, Hc. cbn [negb]. run. rewrite Hp. run. now rewrite Hi.
Qed.

(** A live org that is connected: the first probe decides between the
    access-expired error and success, the second probe only sets
    [isPersonAccountEnabled]. *)
Lemma org_setup_probes this st org :
  orgStore st !! this = Some org ->
  ScriptOrg.isFileMedia org = false ->
  ScriptOrg.isConnected org = true ->
  let probe := "SELECT Id FROM Account LIMIT 1" in
  let capability := "SELECT IsPersonAccount FROM Account LIMIT 1" in
  if queryAsync (trace st) org probe false then
    exists st',
      org_setup this st = (Ok tt, st') /\
      orgAt st' this =
        ScriptOrg.set_isPersonAccountEnabled
          (queryAsync (trace st ++ [QueryAsync org probe false]) org
                      capability false)
          org
  else
    (org_setup this st).1 =
    Throw (CommandInitializationError accessToOrgExpired [ScriptOrg.name org]).
Proof.
  intros Hl Hf Hc probe capability.
  pose proof (lookup_lt_Some _ _ _ Hl) as Hlt.
  unfold ScriptOrg_setupAsync, _setupConnection, _validateAccessTokenAsync,
    tryQuery. run.
  repeat (progress (unfold orgAt; cbn [orgStore]; rewrite ?Hl, ?Hf, ?Hc;
                    cbn [negb default from_option id]; run)).
  subst probe capability.
  destruct (queryAsync (trace st) org _ false); cbn [negb]; run.
  - eexists. split; [reflexivity|].
    unfold orgAt. cbn [orgStore].
    rewrite list_lookup_insert_eq by assumption. now rewrite Hl.
  - reflexivity.
Qed.

(** C7, where the code departs from it: for a live org that is not connected,
    an sfdx that prints nothing makes [_parseForceOrgDisplayResult] return
    null, and the read of [isConnected] from it throws a TypeError, not the
    CommandInitializationError of a missing connected indicator. *)
Theorem org_setup_empty_display this st :
  ScriptOrg.isFileMedia (orgAt st this) = false ->
  ScriptOrg.isConnected (orgAt st this) = false ->
  execSfdx (trace st ++ [Log infoNormal tryingToConnectCLI
                             [ScriptOrg.name (orgAt st this)]])
           "force:org:display" (ScriptOrg.name (orgAt st this)) = "" ->
  (org_setup this st).1 =
    Throw (TypeError "Cannot read property 'isConnected' of null") /\
  forall resource params,
    (org_setup this st).1 <> Throw (CommandInitializationError resource params).
Proof.
  intros Hf Hc He.
  assert (H : (org_setup this st).1 =
              Throw (TypeError "Cannot read property 'isConnected' of null")).
  { unfold ScriptOrg_setupAsync, _setupConnection. run.
    rewrite Hf, Hc. cbn [negb]. run. now rewrite He. }
  split; [exact H|]. intros resource params. now rewrite H.
Qed.

(** *** Script.setupAsync: the steps *)

Lemma bind_ok {A B} (m : M A) (k : A -> M B) st b st' :
  (m ≫= k) st = (Ok b, st') ->
  exists a st1, m st = (Ok a, st1) /\ k a st1 = (Ok b, st').
Proof.
  unfold mbind, M_bind. destruct (m st) as [[a|e] st1]; [eauto|discriminate].
Qed.

Lemma findOrg_run username st :
  exists r st1,
    findOrg username st = (Ok r, st1) /\
    objectStore st1 = objectStore st /\ script st1 = script st /\
    trace st1 = trace st /\
    exists fresh, orgStore st1 = orgStore st ++ fresh /\
                  Forall (fun o => o = ScriptOrg.new) fresh.
Proof.
  unfold findOrg, newOrg. destruct (filter _ _).
  - do 2 eexists. repeat split. exists [ScriptOrg.new]. auto.
  - do 2 eexists. repeat split. exists []. now rewrite app_nil_r.
Qed.

(** The first [filter] of [setupAsync] keeps the included entries, in order,
    and logs the others; it changes nothing else. *)
Lemma removeExcluded_run l st :
  exists tr,
    removeExcluded text_eq_member l st =
    (Ok (filter (fun r => included text_eq_member (objectAt st r) = true) l),
     mkState (orgStore st) (objectStore st) (script st) (trace st ++ tr)) /\
    Forall (fun e => exists params, e = Log infoVerbose objectWillBeExcluded params)
           tr.
Proof.
  revert st. induction l as [|r l IH]; intros st.
  - exists []. cbn. rewrite app_nil_r. now destruct st.
  - cbn [removeExcluded]. run.
    destruct (included text_eq_member (objectAt st r)) eqn:Hi; run.
    + destruct (IH st) as (tr & -> & Htr). exists tr. run.
      rewrite filter_cons_True by assumption. auto.
    + match goal with
      | |- context [removeExcluded _ l ?s] => destruct (IH s) as (tr & Hrun & Htr)
      end.
      rewrite Hrun. eexists (_ :: tr). run. rewrite <- app_assoc. cbn [app].
      rewrite filter_cons_False by congruence.
      split; [reflexivity|]. constructor; eauto.
Qed.

(** What [forEach] over [setup] keeps: the orgs, the trace, the script but
    for [objectsMap], the size of the object store, and the objects that are
    not in the list. *)
Lemma setup_frame this st r st' :
  object_setup this st = (r, st') ->
  orgStore st' = orgStore st /\ trace st' = trace st /\
  Script.objects (script st') = Script.objects (script st) /\
  Script.sourceOrg (script st') = Script.sourceOrg (script st) /\
  length (objectStore st') = length (objectStore st) /\
  (forall x, x <> this -> objectAt st' x = objectAt st x) /\
  (forall k, is_Some (Script.objectsMap (script st) !! k) ->
             is_Some (Script.objectsMap (script st') !! k)).
Proof.
  intros H. apply setup_inv in H.
  destruct H; unfold storeObject, registered, Script.set_objectsMap;
    cbn [orgStore trace script Script.objects Script.sourceOrg
         Script.objectsMap objectStore];
    rewrite ?length_insert; repeat split; auto.
  all: try (intros x Hx; unfold objectAt; cbn [objectStore];
            now rewrite ?list_lookup_insert_ne by congruence).
  all: intros k Hk; destruct (decide (ScriptObject.name o = k)) as [->|Hne];
    [rewrite lookup_insert_eq; eauto | now rewrite lookup_insert_ne].
Qed.

Lemma forEach_setup_frame l st r st' :
  forEach l object_setup st = (r, st') ->
  orgStore st' = orgStore st /\ trace st' = trace st /\
  Script.objects (script st') = Script.objects (script st) /\
  Script.sourceOrg (script st') = Script.sourceOrg (script st) /\
  length (objectStore st') = length (objectStore st) /\
  (forall x, x ∉ l -> objectAt st' x = objectAt st x) /\
  (forall k, is_Some (Script.objectsMap (script st) !! k) ->
             is_Some (Script.objectsMap (script st') !! k)).
Proof.
  revert st. induction l as [|this l IH]; intros st; cbn [forEach].
  - intros [= <- <-]. auto 10.
  - unfold mbind, M_bind.
    destruct (object_setup this st) as [[[]|e] st1] eqn:H1.
    + intros H. apply IH in H as (-> & -> & -> & -> & -> & Hobj & Hmap).
      apply setup_frame in H1 as (-> & -> & -> & -> & -> & Hobj1 & Hmap1).
      repeat split; auto.
      intros x Hx. apply not_elem_of_cons in Hx as [Hne Hx].
      rewrite Hobj by assumption. now apply Hobj1.
    + intros [= <- <-].
      apply setup_frame in H1 as (-> & -> & -> & -> & -> & Hobj1 & Hmap1).
      repeat split; auto.
      intros x Hx. apply not_elem_of_cons in Hx as [Hne Hx]. now apply Hobj1.
Qed.

(** The tail of [setupAsync] when it returns: without a RecordTypeId field
    among the supported plans only [this.objects] changes; with one, a single
    object is created, set up, and its query restricted and ordered. *)
Lemma addExtraObjects_ok objects st st' :
  add_extra objects st = (Ok tt, st') ->
  let kept := filter (fun r => supported NOT_SUPPORTED_OBJECTS st r = true)
                     objects in
  let names := objectsWithRecordTypeFields st kept in
  let new := length (objectStore st) in
  (names = [] /\ st' = withObjects kept st) \/
  (names <> [] /\
   exists st1 q,
     object_setup new (withRecordType kept st) = (Ok tt, st1) /\
     ScriptObject.parsedQuery (objectAt st1 new) = Some q /\
     st' = storeObject new
             (ScriptObject.set_query (composeQuery (restrictToObjects names q))
                (ScriptObject.set_parsedQuery
                   (Some (restrictToObjects names q)) (objectAt st1 new)))
             st1).
Proof.
  intros H kept names new. unfold addExtraObjects in H. revert H. run.
  fold kept. fold names. intros H.
  case_bool_decide as Hn.
  2: { left. split; [destruct names; [reflexivity|cbn in Hn; lia]|].
       now injection H as <-. }
  right. split; [intros Hnil; rewrite Hnil in Hn; cbn in Hn; lia|].
  revert H. run.
  assert (Hnew : objectAt
            (mkState (orgStore st) (objectStore st ++ [ScriptObject.new])
               (Script.set_objects (kept ++ [length (objectStore st)])
                  (Script.set_objects kept (script st))) (trace st))
            (length (objectStore st)) = ScriptObject.new).
  { unfold objectAt. cbn [objectStore].
    now rewrite lookup_app_r, Nat.sub_diag by lia. }
  rewrite Hnew.
  replace (<[length (objectStore st):=assignRecordType ScriptObject.new]>
             (objectStore st ++ [ScriptObject.new]))
    with (objectStore st ++ [assignRecordType ScriptObject.new]).
  2: { rewrite insert_app_r_alt, Nat.sub_diag by lia. reflexivity. }
  change (mkState (orgStore st)
            (objectStore st ++ [assignRecordType ScriptObject.new])
            (Script.set_objects (kept ++ [length (objectStore st)])
               (Script.set_objects kept (script st))) (trace st))
    with (withRecordType kept st).
  destruct (object_setup _ (withRecordType kept st)) as [[[]|e] st1] eqn:Hs;
    run; [|discriminate].
  destruct (ScriptObject.parsedQuery (objectAt st1 _)) as [q|] eqn:Hq;
    run; [|discriminate].
  intros [= <-]. exists st1, q. auto.
Qed.

(** [setupAsync] when it returns: some entry was included, the orgs were set
    up without a change to the objects, every included entry was set up in
    order, and the tail ran. *)
Lemma script_setup_ok su tu bp av st st' :
  script_setup su tu bp av st = (Ok tt, st') ->
  includedObjects st <> [] /\
  exists st2 st3,
    objectStore st2 = objectStore st /\
    Script.objectsMap (script st2) = Script.objectsMap (script st) /\
    Script.objects (script st2) = includedObjects st /\
    forEach (includedObjects st) object_setup st2 = (Ok tt, st3) /\
    add_extra (includedObjects st) st3 = (Ok tt, st').
Proof.
  unfold setupAsync. intros H.
  apply bind_ok in H as ([] & s1 & H1 & H). injection H1 as <-.
  apply bind_ok in H as (src & s2 & H2 & H).
  destruct (findOrg_run su (mkState (orgStore st) (objectStore st)
              (Script.set_basePath bp (script st)) (trace st)))
    as (src' & s2' & Hf & Ho2 & Hs2 & _).
  cbn [script objectStore] in *.
  assert (Hf' := Hf). unfold modifyScript in H2. cbn in H2.
  rewrite H2 in Hf'. injection Hf' as <- <-. clear H2.
  apply bind_ok in H as ([] & s3 & H3 & H). injection H3 as <-.
  apply bind_ok in H as (tgt & s4 & H4 & H).
  match type of H4 with
  | findOrg _ ?s = _ =>
      destruct (findOrg_run tu s) as (tgt' & s4' & Hf4 & Ho4 & Hs4 & _)
  end.
  rewrite H4 in Hf4. injection Hf4 as <- <-. clear H4.
  cbn [script objectStore] in *.
  apply bind_ok in H as ([] & s5 & H5 & H). injection H5 as <-.
  apply bind_ok in H as ([] & s6 & H6 & H). injection H6 as <-.
  apply bind_ok in H as (s & s7 & H7 & H). injection H7 as <- <-.
  apply bind_ok in H as (objects & s8 & H8 & H).
  match type of H8 with
  | removeExcluded _ _ ?s = _ =>
      destruct (removeExcluded_run
                  (Script.objects (script s)) s) as (tr & Hr & _)
  end.
  cbn [script] in Hr, H8.
  rewrite Hr in H8. injection H8 as <- <-. clear Hr.
  cbn [script objectStore orgStore trace] in H.
  assert (Hincl :
    filter (fun r => included text_eq_member
              (objectAt
                 (mkState (orgStore s4) (objectStore s4)
                    (if Js.truthy av
                     then Script.set_apiVersion av
                            (Script.set_targetOrg (Some tgt) (script s4))
                     else Script.set_targetOrg (Some tgt) (script s4))
                    (trace s4)) r) = true)
      (Script.objects
         (if Js.truthy av
          then Script.set_apiVersion av
                 (Script.set_targetOrg (Some tgt) (script s4))
          else Script.set_targetOrg (Some tgt) (script s4)))
    = includedObjects st).
  { unfold includedObjects.
    replace (Script.objects _) with (Script.objects (script st)).
    2: { rewrite Hs4, Hs2. now destruct (Js.truthy av). }
    apply list_filter_iff. intros r. unfold objectAt. cbn [objectStore].
    now rewrite Ho4, Ho2. }
  rewrite Hincl in H. clear Hincl.
  apply bind_ok in H as ([] & s9 & H9 & H). injection H9 as <-.
  case_bool_decide as Hlen; [discriminate|].
  split; [intros Hnil; now rewrite Hnil in Hlen|].
  apply bind_ok in H as (org & s10 & H10 & H). injection H10 as <- <-.
  apply bind_ok in H as ([] & s11 & H11 & H). injection H11 as <-.
  apply bind_ok in H as (org' & s12 & H12 & H). injection H12 as <- <-.
  apply bind_ok in H as ([] & s13 & H13 & H). injection H13 as <-.
  apply bind_ok in H as ([] & s14 & H14 & H).
  apply org_setup_frame in H14 as (Ho14 & Hs14 & _).
  apply bind_ok in H as ([] & s15 & H15 & H).
  apply org_setup_frame in H15 as (Ho15 & Hs15 & _).
  apply bind_ok in H as ([] & s16 & H16 & H).
  exists s15, s16.
  rewrite Ho15, Ho14, Hs15, Hs14. cbn [objectStore script].
  rewrite Ho4, Ho2, Hs4, Hs2.
  repeat split; try assumption; now destruct (Js.truthy av).
Qed.

(** *** The RecordType object *)

Lemma normalized_where q o : Query.where_ (normalized q o) = Query.where_ q.
Proof.
  unfold normalized.
  destruct (operation_eq _ _ _); fields; destruct (existsb _ _); reflexivity.
Qed.






Lemma includedObjects_valid st :
  Forall (fun r => r < length (objectStore st)) (Script.objects (script st)) ->
  forall r, r ∈ includedObjects st -> r < length (objectStore st).
Proof.
  intros Hwf r Hr. unfold includedObjects in Hr.
  apply list_elem_of_filter in Hr as [_ Hr].
  rewrite Forall_forall in Hwf. now apply Hwf.
Qed.


(** *** The map of the plans *)




(** *** The exclusion filter *)

(** For an operation given as a member of the enum the filter drops an entry
    exactly when it is excluded and the member is not Readonly. *)
Lemma included_member o m :
  ScriptObject.operation o = OpEnum m ->
  (included text_eq_member o = false <->
   ScriptObject.excluded o = true /\ m <> Readonly).
Proof.
  intros Hop. unfold included. rewrite Hop. cbn [operation_eq].
  destruct (ScriptObject.excluded o); cbn [negb orb];
    try case_bool_decide; intuition congruence.
Qed.

(** When the filter keeps no entry, [setupAsync] throws the no-objects error
    before it touches an org: nothing was sent to sfdx or to an org (the
    trace grew by exclusion logs only), and the org store grew by the fresh
    orgs of unknown user names only. *)
Lemma script_setup_no_objects su tu bp av st :
  includedObjects st = [] ->
  exists st' tr fresh,
    script_setup su tu bp av st =
      (Throw (CommandInitializationError noObjectsDefinedInPackageFile []), st') /\
    Script.objects (script st') = [] /\
    objectStore st' = objectStore st /\
    trace st' = trace st ++ tr /\
    Forall (fun e => exists params,
              e = Log infoVerbose objectWillBeExcluded params) tr /\
    orgStore st' = orgStore st ++ fresh /\
    Forall (fun o => o = ScriptOrg.new) fresh.
Proof.
  intros Hnone. unfold setupAsync.
  unfold mbind at 1, M_bind at 1. unfold modifyScript at 1.
  unfold mbind at 1, M_bind at 1.
  match goal with
  | |- context [findOrg su ?s] =>
      destruct (findOrg_run su s) as (src & s2 & -> & Ho2 & Hs2 & Ht2 & f2 & Hg2 & Hf2)
  end.
  unfold mbind at 1, M_bind at 1. unfold modifyScript at 1.
  unfold mbind at 1, M_bind at 1.
  match goal with
  | |- context [findOrg tu ?s] =>
      destruct (findOrg_run tu s) as (tgt & s4 & -> & Ho4 & Hs4 & Ht4 & f4 & Hg4 & Hf4)
  end.
  cbn [objectStore script trace orgStore] in *.
  unfold mbind at 1, M_bind at 1. unfold modifyScript at 1.
  unfold mbind at 1, M_bind at 1. unfold modifyScript at 1.
  unfold mbind at 1, M_bind at 1. unfold getScript at 1.
  unfold mbind at 1, M_bind at 1.
  match goal with
  | |- context [removeExcluded _ ?l ?s] =>
      destruct (removeExcluded_run l s) as (tr & Hr & Htr)
  end.
  cbn [objectStore script trace orgStore] in *.
  rewrite Hr. clear Hr.
  assert (Hincl :
    filter (fun r => included text_eq_member
              (objectAt
                 (mkState (orgStore s4) (objectStore s4)
                    (if Js.truthy av
                     then Script.set_apiVersion av
                            (Script.set_targetOrg (Some tgt) (script s4))
                     else Script.set_targetOrg (Some tgt) (script s4))
                    (trace s4)) r) = true)
      (Script.objects
         (if Js.truthy av
          then Script.set_apiVersion av
                 (Script.set_targetOrg (Some tgt) (script s4))
          else Script.set_targetOrg (Some tgt) (script s4)))
    = []).
  { rewrite <- Hnone. unfold includedObjects.
    replace (Script.objects _) with (Script.objects (script st)).
    2: { rewrite Hs4, Hs2. now destruct (Js.truthy av). }
    apply list_filter_iff. intros r. unfold objectAt. cbn [objectStore].
    now rewrite Ho4, Ho2. }
  rewrite Hincl. run. cbn [length bool_decide decide_rel]. run.
  rewrite bool_decide_eq_true_2 by reflexivity.
  do 3 eexists. split; [reflexivity|]. cbn [script objectStore trace orgStore].
  rewrite Ho4, Ho2, Ht4, Ht2, Hg4, Hg2, <- app_assoc.
  repeat split; try assumption. now apply Forall_app.
Qed.

(** C4, where the code departs from it: an entry that is marked excluded and
    whose operation is Readonly given as text, as a script file gives it, is
    dropped all the same, because the filter compares the text with the
    member before [setup] has turned the text into the member; with no other
    entry, [setupAsync] then throws the no-objects error. *)
Theorem script_setup_drops_excluded_readonly_text su tu bp av st this o :
  text_eq_member "Readonly" Readonly = false ->
  Script.objects (script st) = [this] ->
  objectStore st !! this = Some o ->
  ScriptObject.excluded o = true ->
  ScriptObject.operation o = OpText "Readonly" ->
  OPERATION_index "Readonly" = OpEnum Readonly /\
  included text_eq_member o = false /\
  exists st',
    script_setup su tu bp av st =
      (Throw (CommandInitializationError noObjectsDefinedInPackageFile []), st') /\
    Script.objects (script st') = [].
Proof.
  intros Htext Hobjs Hl Hex Hop.
  assert (Hincl : included text_eq_member o = false).
  { unfold included. now rewrite Hex, Hop. }
  split; [reflexivity|]. split; [exact Hincl|].
  destruct (script_setup_no_objects su tu bp av st)
    as (st' & tr & fresh & Hrun & Hempty & _).
  - unfold includedObjects. rewrite Hobjs.
    rewrite filter_cons_False; [reflexivity|].
    rewrite (objectAt_lookup _ _ _ Hl). congruence.
  - eauto.
Qed.

(** ** More of ScriptObject.setup *)

Lemma initialize_initialExternalId o :
  ScriptObject.initialExternalId (init_object o) = ScriptObject.externalId o.
Proof.
  unfold initialize. fields.
  destruct (ScriptObject.operation o) eqn:Hop; fields; rewrite ?Hop;
    destruct (operation_eq _ _ _); now fields.
Qed.

(** The object at [this] after [setup], whatever the outcome. *)
Lemma setup_object_cases this st o r st' :
  objectStore st !! this = Some o ->
  object_setup this st = (r, st') ->
  (exists ex,
     parseQuery (ScriptObject.query o) = inr ex /\
     objectAt st' this = init_object o /\
     r = Throw (CommandInitializationError MalformedQuery
                  [ScriptObject.name o; ScriptObject.query o; ex])) \/
  (exists q pdq dqs,
     parseQuery (ScriptObject.query o) = inl q /\
     objectAt st' this =
       ScriptObject.set_deleteQuery dqs
         (ScriptObject.set_parsedDeleteQuery pdq
            (apply_query q (init_object o)))).
Proof.
  intros Hl H.
  pose proof (lookup_in_store _ _ _ Hl) as Hlt.
  apply objectAt_lookup in Hl. subst o.
  destruct (parseQuery (ScriptObject.query (objectAt st this)))
    as [q|ex] eqn:Hp.
  - right. destruct (setup_object_parsed _ _ _ _ _ Hlt Hp H) as (pdq & dqs & ->).
    eauto.
  - left. destruct (setup_object_malformed _ _ _ _ _ Hlt Hp H) as [-> ->].
    eauto.
Qed.

Lemma applyQuery_initialExternalId q o :
  ScriptObject.initialExternalId (apply_query q o)
  = ScriptObject.initialExternalId o.
Proof.
  rewrite applyQuery_eq. destruct (operation_eq _ _ _); now fields.
Qed.

(** X1: [setup] keeps the external id that the entry came with in
    [initialExternalId], however it ends; and unless the operation is Insert
    the external id itself is kept. *)
Theorem setup_keeps_initial_external_id this st o :
  objectStore st !! this = Some o ->
  forall r st', object_setup this st = (r, st') ->
    ScriptObject.initialExternalId (objectAt st' this)
      = ScriptObject.externalId o /\
    (operation_is (ScriptObject.operation (init_object o)) Insert = false ->
     ScriptObject.externalId (objectAt st' this) = ScriptObject.externalId o).
Proof.
  intros Hl r st' H.
  pose proof (initialize_externalId o) as He.
  destruct (setup_object_cases _ _ _ _ _ Hl H)
    as [(ex & _ & -> & _) | (q & pdq & dqs & _ & ->)].
  - split; [apply initialize_initialExternalId|].
    intros Hni. now rewrite He, Hni.
  - destruct (applyQuery_fields q (init_object o)) as (_ & _ & _ & Hext & _).
    fields. rewrite applyQuery_initialExternalId, Hext.
    split; [apply initialize_initialExternalId|].
    intros Hni. now rewrite He, Hni.
Qed.


(** *** The names of the queried fields *)

Lemma distinct_go_names seen l :
  NoDup (map field_of (CommonUtils.distinct_go seen l)) /\
  (forall k, k ∈ map field_of (CommonUtils.distinct_go seen l) -> k ∉ seen) /\
  (forall k, k ∈ map field_of l ->
             k ∈ seen \/ k ∈ map field_of (CommonUtils.distinct_go seen l)).
Proof.
  revert seen. induction l as [|x l IH]; intros seen; cbn [CommonUtils.distinct_go map].
  - split; [constructor|]. split; intros k Hk; now apply elem_of_nil in Hk.
  - destruct (decide (field_of x ∈ seen)) as [Hin|Hnin].
    + destruct (IH seen) as (Hnd & Hfresh & Hall).
      split; [assumption|]. split; [assumption|].
      intros k [-> | Hk]%elem_of_cons; auto.
    + destruct (IH (field_of x :: seen)) as (Hnd & Hfresh & Hall).
      cbn [map]. split; [|split].
      * apply NoDup_cons. split; [|assumption].
        intros Hk. apply Hfresh in Hk. apply Hk. left.
      * intros k [-> | Hk]%elem_of_cons; [assumption|].
        apply Hfresh in Hk. intros Hs. apply Hk. now right.
      * intros k [-> | Hk]%elem_of_cons; [right; left|].
        destruct (Hall k Hk) as [[-> | Hs]%elem_of_cons | Hr].
        -- right. left.
        -- now left.
        -- right. now right.
Qed.

Lemma distinctArray_NoDup l :
  NoDup (map field_of (CommonUtils.distinctArray l)).
Proof. apply distinct_go_names. Qed.

Lemma distinctArray_names_iff l k :
  k ∈ map field_of (CommonUtils.distinctArray l) <-> k ∈ map field_of l.
Proof.
  split; [apply distinctArray_names|].
  intros Hk. destruct (distinct_go_names [] l) as (_ & _ & Hall).
  destruct (Hall k Hk) as [Hs | Hr]; [now apply elem_of_nil in Hs|exact Hr].
Qed.

Lemma normalized_NoDup q o :
  NoDup (map field_of (Query.fields (normalized q o))).
Proof.
  unfold normalized.
  destruct (operation_eq _ _ _); fields.
  - cbn. repeat constructor. intros H. now apply elem_of_nil in H.
  - destruct (existsb _ _) eqn:He; fields; [apply distinctArray_NoDup|].
    rewrite map_app. apply NoDup_app. split; [apply distinctArray_NoDup|].
    split; [|cbn; repeat constructor; intros H; now apply elem_of_nil in H].
    intros k Hk [-> | Hn]%elem_of_cons; [|now apply elem_of_nil in Hn].
    apply existsb_Id in Hk. congruence.
Qed.

(** X3: after [setup] of an entry whose query parsed, no name occurs twice
    among the fields of the primary query (with the de-duplication of section
    4.1 of the specification for [distinctArray]). *)
Theorem setup_field_names_distinct this st o q :
  objectStore st !! this = Some o ->
  parseQuery (ScriptObject.query o) = inl q ->
  forall r st', object_setup this st = (r, st') ->
    NoDup (ScriptObject.fieldsInQuery (objectAt st' this)).
Proof.
  intros Hl Hp r st' H.
  destruct (setup_object_cases _ _ _ _ _ Hl H)
    as [(ex & Hp' & _) | (q' & pdq & dqs & Hp' & ->)]; [congruence|].
  destruct (applyQuery_fields q' (init_object o)) as (_ & Hpq & _).
  unfold ScriptObject.fieldsInQuery. fields. rewrite Hpq.
  apply normalized_NoDup.
Qed.

Lemma existsb_name (n : string) (l : list (option string)) :
  existsb (fun x => Js.eq_opt x n) l = true <-> Some n ∈ l.
Proof.
  rewrite existsb_exists. split.
  - intros ([x|] & Hin & Heq); cbn in Heq; [|discriminate].
    apply String.eqb_eq in Heq as ->. now apply list_elem_of_In.
  - intros Hin. exists (Some n). split; [now apply list_elem_of_In|].
    cbn. apply String.eqb_refl.
Qed.

(** X4: after [setup] of an entry whose query parsed, the plan has the
    RecordTypeId field exactly when the operation is not Delete and the
    query listed it: a Delete plan never asks for the RecordType object. *)
Theorem setup_record_type_field this st o q :
  objectStore st !! this = Some o ->
  parseQuery (ScriptObject.query o) = inl q ->
  forall r st', object_setup this st = (r, st') ->
    ScriptObject.hasRecordTypeIdField (objectAt st' this) =
    negb (operation_is (ScriptObject.operation (init_object o)) Delete)
    && existsb (fun x => Js.eq_opt x "RecordTypeId")
               (map field_of (Query.fields q)).
Proof.
  intros Hl Hp r st' H.
  destruct (setup_object_cases _ _ _ _ _ Hl H)
    as [(ex & Hp' & _) | (q' & pdq & dqs & Hp' & ->)]; [congruence|].
  assert (q' = q) as -> by congruence.
  destruct (applyQuery_fields q (init_object o)) as (_ & Hpq & _).
  unfold ScriptObject.hasRecordTypeIdField, ScriptObject.fieldsInQuery.
  fields. rewrite Hpq. unfold normalized.
  destruct (operation_eq _ _ _); fields; [reflexivity|].
  cbn [negb andb].
  apply eq_true_iff_eq. rewrite !existsb_name.
  destruct (existsb _ _); fields; rewrite ?map_app, ?elem_of_app;
    rewrite distinctArray_names_iff; [tauto|].
  split; [|tauto]. intros [Hk | Hk]; [assumption|].
  cbn in Hk. apply list_elem_of_singleton in Hk. discriminate.
Qed.

(** X5: [setup] of one plan changes nothing but that plan and [objectsMap]:
    the orgs, the trace of outside calls, [objects], the source and target
    org and every other plan are as before, no plan is created, and no key
    leaves [objectsMap]. *)
Theorem setup_touches_only_its_plan this st r st' :
  setup parseQuery composeQuery text_eq_member this st = (r, st') ->
  orgStore st' = orgStore st /\
  trace st' = trace st /\
  Script.objects (script st') = Script.objects (script st) /\
  Script.sourceOrg (script st') = Script.sourceOrg (script st) /\
  Script.targetOrg (script st') = Script.targetOrg (script st) /\
  length (objectStore st') = length (objectStore st) /\
  (forall x, x <> this -> objectStore st' !! x = objectStore st !! x) /\
  (forall k, is_Some (Script.objectsMap (script st) !! k) ->
             is_Some (Script.objectsMap (script st') !! k)).
Proof.
  intros H. apply setup_inv in H.
  destruct H; unfold storeObject, registered, Script.set_objectsMap;
    cbn [orgStore trace script Script.objects Script.sourceOrg
         Script.targetOrg Script.objectsMap objectStore];
    rewrite ?length_insert; repeat split; auto.
  all: try (intros x Hx; now rewrite ?list_lookup_insert_ne by congruence).
  all: intros k Hk; destruct (decide (ScriptObject.name o = k)) as [->|Hne];
    [rewrite lookup_insert_eq; eauto | now rewrite lookup_insert_ne].
Qed.

Lemma applyQuery_delete_fields q o :
  ScriptObject.parsedDeleteQuery (apply_query q o)
    = ScriptObject.parsedDeleteQuery o /\
  ScriptObject.deleteQuery (apply_query q o) = ScriptObject.deleteQuery o.
Proof.
  rewrite applyQuery_eq. destruct (operation_eq _ _ _); now fields.
Qed.

Lemma initialize_delete_fields o :
  ScriptObject.parsedDeleteQuery (init_object o)
    = ScriptObject.parsedDeleteQuery o.
Proof.
  unfold initialize. fields.
  destruct (ScriptObject.operation o) eqn:Hop; fields; rewrite ?Hop;
    destruct (operation_eq _ _ _); now fields.
Qed.

(** X6: for an entry that is no Delete and has [deleteOldData] unset, [setup]
    returns exactly when the primary query parses, and it leaves
    [parsedDeleteQuery] and [deleteQuery] as they were. *)
Theorem setup_without_delete_data this st o :
  objectStore st !! this = Some o ->
  ScriptObject.deleteOldData o = false ->
  operation_is (ScriptObject.operation (init_object o)) Delete = false ->
  forall r st', object_setup this st = (r, st') ->
    (r = Ok tt <-> exists q, parseQuery (ScriptObject.query o) = inl q) /\
    ScriptObject.parsedDeleteQuery (objectAt st' this)
      = ScriptObject.parsedDeleteQuery o /\
    ScriptObject.deleteQuery (objectAt st' this) = ScriptObject.deleteQuery o /\
    ScriptObject.deleteOldData (objectAt st' this) = false.
Proof.
  intros Hl Hnd Hop r st' H.
  pose proof (lookup_in_store _ _ _ Hl) as Hlt.
  pose proof (objectAt_lookup _ _ _ Hl) as Hat.
  assert (Hdel : forall q,
            ScriptObject.deleteOldData (apply_query q (init_object o)) = false).
  { intros q. destruct (applyQuery_fields q (init_object o))
      as (_ & _ & _ & _ & _ & _ & ->).
    now rewrite Hop, initialize_deleteOldData, Hnd. }
  apply setup_inv in H.
  destruct H as [o1 ex Ho Hq | o1 q Hq Ho Hno | o1 q ex Hq Ho Hyes
                | o1 q dq Hq Ho Hyes | o1 q dq src dq' Hq Ho Hyes];
    rewrite Hat in *; subst o1;
    try (rewrite Hdel in Hyes; discriminate); store.
  - rewrite initialize_query in Hq.
    rewrite initialize_delete_fields, initialize_deleteQuery,
      initialize_deleteOldData.
    repeat split; try assumption; try reflexivity; try discriminate.
    intros (q & Hq'). congruence.
  - rewrite initialize_query in Hq.
    destruct (applyQuery_delete_fields q (init_object o)) as [-> ->].
    rewrite initialize_delete_fields, initialize_deleteQuery, Hno.
    repeat split; eauto.
Qed.

Lemma normalized_limit q o : Query.limit (normalized q o) = Query.limit q.
Proof.
  unfold normalized.
  destruct (operation_eq _ _ _); fields; destruct (existsb _ _); reflexivity.
Qed.

(** X7: after [setup] of an entry whose query parsed, the plan is a limited
    query exactly when the parsed query has a positive limit or a where
    clause: the rewriting of the field list touches neither. *)
Theorem setup_limited_query this st o q :
  objectStore st !! this = Some o ->
  parseQuery (ScriptObject.query o) = inl q ->
  forall r st', object_setup this st = (r, st') ->
    ScriptObject.isLimitedQuery (objectAt st' this) =
    match Query.limit q with
    | Some n => (0 <? n)%Z
    | None => false
    end
    || bool_decide (is_Some (Query.where_ q)).
Proof.
  intros Hl Hp r st' H.
  destruct (setup_object_cases _ _ _ _ _ Hl H)
    as [(ex & Hp' & _) | (q' & pdq & dqs & Hp' & ->)]; [congruence|].
  assert (q' = q) as -> by congruence.
  destruct (applyQuery_fields q (init_object o)) as (_ & Hpq & _).
  unfold ScriptObject.isLimitedQuery. fields.
  now rewrite Hpq, normalized_limit, normalized_where.
Qed.

Lemma initialize_parsedQuery o :
  ScriptObject.parsedQuery (init_object o) = ScriptObject.parsedQuery o.
Proof.
  unfold initialize. fields.
  destruct (ScriptObject.operation o) eqn:Hop; fields; rewrite ?Hop;
    destruct (operation_eq _ _ _); now fields.
Qed.

(** X8: when the primary query does not parse, [setup] throws the
    malformed-query error with the label and the query text of the entry,
    and the plan is not registered: the script, [objectsMap] included, is as
    before, and the plan keeps its label, its query text and no parsed
    query of this run. *)
Theorem setup_malformed_query_registers_nothing this st o ex :
  objectStore st !! this = Some o ->
  parseQuery (ScriptObject.query o) = inr ex ->
  forall r st', object_setup this st = (r, st') ->
    r = Throw (CommandInitializationError MalformedQuery
                 [ScriptObject.name o; ScriptObject.query o; ex]) /\
    script st' = script st /\
    ScriptObject.name (objectAt st' this) = ScriptObject.name o /\
    ScriptObject.query (objectAt st' this) = ScriptObject.query o /\
    ScriptObject.parsedQuery (objectAt st' this) = ScriptObject.parsedQuery o.
Proof.
  intros Hl Hp r st' H.
  pose proof (lookup_in_store _ _ _ Hl) as Hlt.
  pose proof (objectAt_lookup _ _ _ Hl) as Hat.
  apply setup_inv in H.
  destruct H as [o1 ex' Ho Hq | o1 q Hq | o1 q ex' Hq
                | o1 q dq Hq | o1 q dq src dq' Hq];
    rewrite Hat in *; try subst o1;
    rewrite initialize_query in Hq; try congruence.
  store. rewrite initialize_name, initialize_query, initialize_parsedQuery.
  assert (ex' = ex) as -> by congruence.
  repeat split.
Qed.

(** ** More of ScriptOrg *)

Lemma org_setup_live_trace this st :
  ScriptOrg.isFileMedia (orgAt st this) = false ->
  length (trace st) < length (trace (org_setup this st).2).
Proof.
  intros H.
  unfold ScriptOrg_setupAsync, _setupConnection, _validateAccessTokenAsync,
    tryQuery. run. rewrite H. cbn [negb]. run.
  repeat match goal with
         | |- context [if negb ?b then _ else _] =>
             destruct b; cbn [negb]; run
         | |- context [match _parseForceOrgDisplayResult ?x with _ => _ end] =>
             destruct (_parseForceOrgDisplayResult x); run
         end;
    rewrite ?length_app; cbn [length]; lia.
Qed.

(** X9: [setupAsync] of an org returns without any change of the state
    exactly when the org is of file media, whether or not it has an access
    token; for every other org something is logged, sent to sfdx or
    queried. *)
Theorem org_setup_noop_iff_file_media this st :
  org_setup this st = (Ok tt, st) <->
  ScriptOrg.isFileMedia (orgAt st this) = true.
Proof.
  split.
  - intros H. destruct (ScriptOrg.isFileMedia (orgAt st this)) eqn:Hf;
      [reflexivity|].
    apply org_setup_live_trace in Hf. rewrite H in Hf. cbn in Hf. lia.
  - intros H. unfold ScriptOrg_setupAsync, _setupConnection. run.
    now rewrite H.
Qed.

(** X10: a live org that has an access token is never sent to sfdx. It is
    probed with "SELECT Id FROM Account LIMIT 1"; when that fails,
    [setupAsync] throws the access-expired error with the name of the org
    and the org is as before; when it succeeds, the person-account probe is
    sent, its outcome is stored in [isPersonAccountEnabled] and nothing else
    of the org changes. *)
Theorem org_setup_connected this st org :
  orgStore st !! this = Some org ->
  ScriptOrg.isFileMedia org = false ->
  ScriptOrg.isConnected org = true ->
  org_setup this st =
  if queryAsync (trace st) org "SELECT Id FROM Account LIMIT 1" false then
    (Ok tt,
     mkState
       (<[this :=
            ScriptOrg.set_isPersonAccountEnabled
              (queryAsync
                 (trace st ++
                  [QueryAsync org "SELECT Id FROM Account LIMIT 1" false])
                 org "SELECT IsPersonAccount FROM Account LIMIT 1" false)
              org]> (orgStore st))
       (objectStore st) (script st)
       (trace st ++
        [QueryAsync org "SELECT Id FROM Account LIMIT 1" false;
         QueryAsync org "SELECT IsPersonAccount FROM Account LIMIT 1" false;
         Log infoNormal successfullyConnected [ScriptOrg.name org]]))
  else
    (Throw (CommandInitializationError accessToOrgExpired [ScriptOrg.name org]),
     mkState (orgStore st) (objectStore st) (script st)
       (trace st ++ [QueryAsync org "SELECT Id FROM Account LIMIT 1" false])).
Proof.
  intros Hl Hf Hc.
  unfold ScriptOrg_setupAsync, _setupConnection, _validateAccessTokenAsync,
    tryQuery. run.
  repeat (progress (unfold orgAt; cbn [orgStore]; rewrite ?Hl, ?Hf, ?Hc;
                    cbn [negb default from_option id]; run)).
  destruct (queryAsync (trace st) org _ false); cbn [negb]; run.
  - repeat (progress (unfold orgAt; cbn [orgStore]; rewrite ?Hl;
                      cbn [default from_option id]; run)).
    now rewrite <- !app_assoc.
  - reflexivity.
Qed.

(** X11: a live org without an access token is looked up with
    "force:org:display"; when the display shows it connected, the access
    token and the instance url of the display are stored in the org as they
    are, and the probes run on the org so updated: a failing first probe
    throws the access-expired error and leaves the new token in the org. *)
Theorem org_setup_connects this st org info :
  orgStore st !! this = Some org ->
  ScriptOrg.isFileMedia org = false ->
  ScriptOrg.isConnected org = false ->
  _parseForceOrgDisplayResult
    (execSfdx (trace st ++ [Log infoNormal tryingToConnectCLI
                                [ScriptOrg.name org]])
              "force:org:display" (ScriptOrg.name org)) = Some info ->
  OrgInfo.isConnected info = true ->
  let connected :=
    ScriptOrg.set_instanceUrl (OrgInfo.InstanceUrl info)
      (ScriptOrg.set_accessToken (OrgInfo.AccessToken info) org) in
  let tr :=
    trace st ++ [Log infoNormal tryingToConnectCLI [ScriptOrg.name org];
                 ExecSfdx "force:org:display" (ScriptOrg.name org)] in
  exists st',
    (org_setup this st).2 = st' /\
    objectStore st' = objectStore st /\ script st' = script st /\
    if queryAsync tr connected "SELECT Id FROM Account LIMIT 1" false then
      (org_setup this st).1 = Ok tt /\
      orgStore st' !! this =
        Some (ScriptOrg.set_isPersonAccountEnabled
                (queryAsync
                   (tr ++ [QueryAsync connected
                             "SELECT Id FROM Account LIMIT 1" false])
                   connected "SELECT IsPersonAccount FROM Account LIMIT 1"
                   false)
                connected)
    else
      (org_setup this st).1 =
        Throw (CommandInitializationError accessToOrgExpired
                 [ScriptOrg.name org]) /\
      orgStore st' !! this = Some connected.
Proof.
  intros Hl Hf Hc Hp Hi connected tr.
  pose proof (lookup_lt_Some _ _ _ Hl) as Hlt.
  assert (Hfc : ScriptOrg.isFileMedia connected = false) by exact Hf.
  assert (Hl' : <[this:=connected]> (orgStore st) !! this = Some connected)
    by now apply list_lookup_insert_eq.
  assert (Hnc : ScriptOrg.name connected = ScriptOrg.name org) by reflexivity.
  subst tr.
  unfold ScriptOrg_setupAsync, _setupConnection, _validateAccessTokenAsync,
    tryQuery. run.
  repeat (progress (unfold orgAt; cbn [orgStore];
                    rewrite ?Hl, ?Hf, ?Hc, ?Hp, ?Hi;
                    cbn [negb default from_option id]; fold connected;
                    rewrite ?Hl', ?Hfc;
                    cbn [negb default from_option id]; run)).
  rewrite <- !app_assoc. cbn [app].
  destruct (queryAsync _ connected "SELECT Id FROM Account LIMIT 1" false);
    cbn [negb]; run.
  - repeat (progress (unfold orgAt; cbn [orgStore]; rewrite ?Hl';
                      cbn [default from_option id]; run)).
    eexists. split; [reflexivity|]. cbn [objectStore script orgStore].
    repeat split.
    rewrite <- ?app_assoc. cbn [app].
    apply list_lookup_insert_eq. now rewrite length_insert.
  - eexists. split; [reflexivity|]. cbn [objectStore script orgStore].
    repeat split. exact Hl'.
Qed.

(** *** The org display *)

Lemma fold_parseLine (f : OrgInfo.t -> option string) (key : string) :
  (forall out line,
     f (parseLine out line) =
     if Js.startsWith key line then Js.pop (Js.split " " line) else f out) ->
  forall lines init,
    f (fold_left parseLine lines init) =
    match last (filter (fun l => Js.startsWith key l = true) lines) with
    | Some line => Js.pop (Js.split " " line)
    | None => f init
    end.
Proof.
  intros Hf lines. induction lines as [|l lines IH] using rev_ind; intros init.
  - reflexivity.
  - rewrite fold_left_app. cbn [fold_left]. rewrite Hf, filter_app.
    rewrite filter_cons, filter_nil.
    destruct (Js.startsWith key l) eqn:Hk.
    + rewrite decide_True by reflexivity. now rewrite last_snoc.
    + rewrite decide_False by discriminate. rewrite app_nil_r. apply IH.
Qed.

Ltac parse_line key :=
  intros out line; unfold parseLine;
  destruct (Js.startsWith key line) eqn:Hkey;
  repeat match goal with
         | |- context [Js.startsWith ?k line] =>
             destruct (Js.startsWith k line)
         end; reflexivity.

(** X12: [_parseForceOrgDisplayResult] returns null for the empty text only;
    otherwise each of AccessToken, InstanceUrl, ConnectedStatus and Status is
    the last piece of the last line that starts with its key ([undefined]
    without such a line), and UserId is never set. So a display is connected
    exactly when its last "Connected Status" line ends in Connected or its
    last "Status" line ends in Active. *)
Theorem parseForceOrgDisplayResult_last_line commandResult :
  (_parseForceOrgDisplayResult commandResult = None <-> commandResult = "") /\
  forall info,
    _parseForceOrgDisplayResult commandResult = Some info ->
    let lines := Js.split "010" commandResult in
    OrgInfo.AccessToken info = lastValue "Access Token" lines /\
    OrgInfo.InstanceUrl info = lastValue "Instance Url" lines /\
    OrgInfo.ConnectedStatus info = lastValue "Connected Status" lines /\
    OrgInfo.Status info = lastValue "Status" lines /\
    OrgInfo.UserId info = None /\
    OrgInfo.isConnected info =
      Js.eq_opt (lastValue "Connected Status" lines) "Connected"
      || Js.eq_opt (lastValue "Status" lines) "Active".
Proof.
  unfold _parseForceOrgDisplayResult, Js.truthy. split.
  - destruct (String.eqb_spec commandResult ""); cbn [negb];
      split; congruence.
  - intros info. destruct (String.eqb commandResult ""); cbn [negb];
      [discriminate|].
    intros [= <-]. set (lines := Js.split "010" commandResult).
    assert (Ha := fold_parseLine OrgInfo.AccessToken "Access Token"
                    ltac:(parse_line "Access Token") lines OrgInfo.new).
    assert (Hu := fold_parseLine OrgInfo.InstanceUrl "Instance Url"
                    ltac:(parse_line "Instance Url") lines OrgInfo.new).
    assert (Hc := fold_parseLine OrgInfo.ConnectedStatus "Connected Status"
                    ltac:(parse_line "Connected Status") lines OrgInfo.new).
    assert (Hs := fold_parseLine OrgInfo.Status "Status"
                    ltac:(parse_line "Status") lines OrgInfo.new).
    assert (Hid : forall ls init,
              OrgInfo.UserId (fold_left parseLine ls init) = OrgInfo.UserId init).
    { intros ls. induction ls as [|l ls IH]; intros init; [reflexivity|].
      cbn [fold_left]. rewrite IH. unfold parseLine.
      repeat match goal with
             | |- context [Js.startsWith ?k l] => destruct (Js.startsWith k l)
             end; reflexivity. }
    unfold OrgInfo.isConnected, lastValue.
    rewrite Ha, Hu, Hc, Hs, Hid.
    repeat split;
      repeat match goal with
             | |- context [last ?l] => destruct (last l)
             end; reflexivity.
Qed.

(** ** More of Script.setupAsync *)

Lemma initialize_no_text o s :
  ScriptObject.operation (init_object o) <> OpText s.
Proof.
  rewrite initialize_operation.
  destruct (ScriptObject.operation o) as [m|t|]; try discriminate.
  unfold OPERATION_index. destruct (OPERATION_of_name t); discriminate.
Qed.

Lemma setup_compiled this st o st' :
  objectStore st !! this = Some o ->
  object_setup this st = (Ok tt, st') ->
  compiled composeQuery (objectAt st' this).
Proof.
  intros Hl H.
  destruct (setup_object_cases _ _ _ _ _ Hl H)
    as [(ex & _ & _ & [=]) | (q & pdq & dqs & _ & ->)].
  destruct (applyQuery_fields q (init_object o))
    as (Hname & Hpq & Hquery & _ & Hop & _).
  exists (normalized q (init_object o)). fields.
  rewrite Hpq, Hname, Hquery, Hop, normalized_sObject.
  repeat split; auto using normalized_has_Id, normalized_NoDup.
  apply initialize_no_text.
Qed.




(** What a returning [setup] does to [objectsMap]: one entry, under the
    name its plan now has. *)
Lemma setup_map this st st' :
  this < length (objectStore st) ->
  object_setup this st = (Ok tt, st') ->
  Script.objectsMap (script st')
  = <[ScriptObject.name (objectAt st' this) := this]>
      (Script.objectsMap (script st)).
Proof.
  intros Hlt H. apply setup_inv in H. inversion H; subst.
  - rewrite objectAt_registered, objectAt_storeObject by assumption.
    reflexivity.
  - rewrite !objectAt_storeObject
      by (unfold storeObject, registered; cbn [objectStore];
          rewrite ?length_insert; assumption).
    reflexivity.
Qed.

Lemma forEach_setup_map l : forall st st3 (m0 : gmap string nat) done,
  NoDup l ->
  (forall r, r ∈ l -> r < length (objectStore st)) ->
  (forall r, r ∈ l -> r ∉ done) ->
  (forall k r, Script.objectsMap (script st) !! k = Some r ->
     m0 !! k = Some r \/ (r ∈ done /\ ScriptObject.name (objectAt st r) = k)) ->
  forEach l object_setup st = (Ok tt, st3) ->
  forall k r, Script.objectsMap (script st3) !! k = Some r ->
    m0 !! k = Some r \/
    (r ∈ done ++ l /\ ScriptObject.name (objectAt st3 r) = k).
Proof.
  induction l as [|this l IH]; intros st st3 m0 done Hnd Hvalid Hdone Hinv Hrun.
  - cbn in Hrun. injection Hrun as <-. rewrite app_nil_r. exact Hinv.
  - cbn [forEach] in Hrun. apply bind_ok in Hrun as ([] & st1 & H1 & Hrest).
    apply NoDup_cons in Hnd as [Hnotin Hnd].
    assert (Hlt : this < length (objectStore st)) by (apply Hvalid; left).
    pose proof (setup_frame _ _ _ _ H1) as (_ & _ & _ & _ & Hlen1 & Hother & _).
    pose proof (setup_map _ _ _ Hlt H1) as Hmap1.
    intros k r Hk.
    destruct (IH st1 st3 m0 (done ++ [this]) Hnd) with (k := k) (r := r)
      as [Hold | [Hin Hname]]; try assumption.
    + intros x Hx. rewrite Hlen1. apply Hvalid. now right.
    + intros x Hx Hin. apply elem_of_app in Hin as [Hin | Hin].
      * apply (Hdone x); [now right | assumption].
      * apply list_elem_of_singleton in Hin as ->. contradiction.
    + intros k' r' Hk'. rewrite Hmap1 in Hk'.
      destruct (decide (ScriptObject.name (objectAt st1 this) = k'))
        as [<- | Hne].
      * rewrite lookup_insert_eq in Hk'. injection Hk' as <-.
        right. split; [|reflexivity].
        apply elem_of_app. right. apply list_elem_of_singleton. reflexivity.
      * rewrite lookup_insert_ne in Hk' by assumption.
        destruct (Hinv _ _ Hk') as [Hold | [Hin Hname]]; [now left|].
        right. split; [apply elem_of_app; now left|].
        rewrite Hother; [assumption|].
        intros ->. apply (Hdone this); [left | assumption].
    + now left.
    + right. split; [|assumption]. now rewrite <- app_assoc in Hin.
Qed.

(** X14: after [setupAsync] has returned, an entry of [objectsMap] is
    either one that was there before the call, or it leads to a plan that
    was set up by this call (an included entry of [objects] or the added
    RecordType object) and whose name is the key. *)
Theorem script_setup_map_keys_are_plan_names su tu bp av st st' :
  Forall (fun r => r < length (objectStore st)) (Script.objects (script st)) ->
  NoDup (Script.objects (script st)) ->
  script_setup su tu bp av st = (Ok tt, st') ->
  forall k r,
    Script.objectsMap (script st') !! k = Some r ->
    Script.objectsMap (script st) !! k = Some r \/
    ((r ∈ includedObjects st \/ r = length (objectStore st)) /\
     ScriptObject.name (objectAt st' r) = k).
Proof.
  intros Hwf Hnd H.
  apply script_setup_ok in H
    as (_ & st2 & st3 & Ho2 & Hm2 & _ & Hloop & Hextra).
  pose proof (includedObjects_valid st Hwf) as Hvalid.
  assert (Hnd' : NoDup (includedObjects st)) by now apply NoDup_filter.
  assert (Hinv3 := forEach_setup_map (includedObjects st) st2 st3
            (Script.objectsMap (script st)) [] Hnd'
            (fun x Hx => eq_ind_r (fun l => x < length l) (Hvalid x Hx) Ho2)
            (fun x _ Hin => proj1 (elem_of_nil x) Hin)
            (fun k r Hk => or_introl (eq_ind _ (fun m => m !! k = Some r)
                                        Hk _ Hm2))
            Hloop).
  cbn [app] in Hinv3.
  apply forEach_setup_frame in Hloop as (_ & _ & _ & _ & Hlen3 & _ & _).
  rewrite Ho2 in Hlen3.
  apply addExtraObjects_ok in Hextra. cbv zeta in Hextra.
  rewrite Hlen3 in Hextra.
  set (kept3 := filter (fun r => supported NOT_SUPPORTED_OBJECTS st3 r = true)
                       (includedObjects st)) in *.
  set (new := length (objectStore st)) in *.
  destruct Hextra as [[_ ->] | (_ & st1 & q & Hsetup & Hpq & ->)].
  - intros k r Hk. cbn in Hk.
    destruct (Hinv3 k r Hk) as [Hold | [Hin Hname]]; [now left|].
    right. split; [now left | exact Hname].
  - assert (Hlenw : new < length (objectStore (withRecordType kept3 st3))).
    { unfold withRecordType. cbn [objectStore].
      rewrite length_app, Hlen3. cbn. unfold new. lia. }
    destruct (setup_frame _ _ _ _ Hsetup)
      as (_ & _ & _ & _ & Hlen1 & Hother & _).
    pose proof (setup_map _ _ _ Hlenw Hsetup) as Hmap1.
    intros k r Hk. cbn [script storeObject] in Hk. rewrite Hmap1 in Hk.
    destruct (decide (ScriptObject.name (objectAt st1 new) = k)) as [<- | Hne].
    + rewrite lookup_insert_eq in Hk. injection Hk as <-.
      right. split; [now right|].
      rewrite objectAt_storeObject by lia. reflexivity.
    + rewrite lookup_insert_ne in Hk by assumption.
      unfold withRecordType in Hk. cbn in Hk.
      destruct (Hinv3 k r Hk) as [Hold | [Hin Hname]]; [now left|].
      right. split; [now left|].
      pose proof (Hvalid r Hin) as Hlt. fold new in Hlt.
      rewrite objectAt_storeObject_ne by lia. rewrite Hother by lia.
      replace (objectAt (withRecordType kept3 st3) r) with (objectAt st3 r);
        [assumption|].
      unfold objectAt, withRecordType. cbn [objectStore].
      now rewrite lookup_app_l by lia.
Qed.

Lemma findOrg_spec username st :
  exists r fresh,
    findOrg username st =
      (Ok r, mkState (orgStore st ++ fresh) (objectStore st) (script st)
                     (trace st)) /\
    ((fresh = [] /\ r ∈ Script.orgs (script st) /\
      ScriptOrg.name (orgAt st r) = username) \/
     (fresh = [ScriptOrg.new] /\ r = length (orgStore st) /\
      forall x, x ∈ Script.orgs (script st) ->
                ScriptOrg.name (orgAt st x) <> username)).
Proof.
  unfold findOrg, newOrg.
  destruct (filter _ _) as [|r l] eqn:Hfl.
  - exists (length (orgStore st)), [ScriptOrg.new]. split; [reflexivity|].
    right. repeat split. intros x Hx Hn.
    assert (Hin : x ∈ filter
              (fun r => (ScriptOrg.name (orgAt st r) =? username) = true)
              (Script.orgs (script st))).
    { apply list_elem_of_filter. split; [|assumption].
      rewrite Hn. apply String.eqb_refl. }
    rewrite Hfl in Hin. now apply elem_of_nil in Hin.
  - exists r, []. rewrite app_nil_r. split; [now destruct st|].
    left. assert (Hin : r ∈ r :: l) by left. rewrite <- Hfl in Hin.
    apply list_elem_of_filter in Hin as [Hn Hin].
    apply String.eqb_eq in Hn. auto.
Qed.

(** The rest of [setupAsync] once the orgs are assigned. *)
Lemma assignAndSetup_eq su tu src tgt objects st :
  assignAndSetup parseQuery composeQuery text_eq_member NOT_SUPPORTED_OBJECTS
    execSfdx queryAsync su tu src tgt objects st
  = (org_setup src;; org_setup tgt;; forEach objects object_setup;;
     add_extra objects) (assigned su tu src tgt st).
Proof. reflexivity. Qed.

(** The head of [setupAsync], up to the check of the objects length: the
    two orgs are looked up by name, a fresh org being made for a name that
    no org of the script has, and the excluded entries are dropped; the
    method is the rest of it run on the state this leaves. *)
Lemma script_setup_head su tu bp av st :
  exists src tgt tr fresh,
    Forall isExclusionLog tr /\
    Forall (fun o => o = ScriptOrg.new) fresh /\
    (Forall (fun r => r < length (orgStore st)) (Script.orgs (script st)) ->
     src < length (orgStore st ++ fresh) /\
     tgt < length (orgStore st ++ fresh) /\
     (src = tgt -> su = tu)) /\
    script_setup su tu bp av st =
    (if bool_decide (length (includedObjects st) = 0)
     then throw (CommandInitializationError noObjectsDefinedInPackageFile [])
     else assignAndSetup parseQuery composeQuery text_eq_member
            NOT_SUPPORTED_OBJECTS execSfdx queryAsync su tu src tgt
            (includedObjects st))
      (mkState (orgStore st ++ fresh) (objectStore st)
         (initialized bp av src tgt (includedObjects st) (script st))
         (trace st ++ tr)).
Proof.
  unfold setupAsync.
  unfold mbind at 1, M_bind at 1. unfold modifyScript at 1.
  unfold mbind at 1, M_bind at 1.
  match goal with
  | |- context [findOrg su ?s] =>
      destruct (findOrg_spec su s) as (src & f2 & -> & Hsrc)
  end.
  unfold mbind at 1, M_bind at 1. unfold modifyScript at 1.
  unfold mbind at 1, M_bind at 1.
  match goal with
  | |- context [findOrg tu ?s] =>
      destruct (findOrg_spec tu s) as (tgt & f4 & -> & Htgt)
  end.
  cbn [objectStore script trace orgStore] in *.
  unfold mbind at 1, M_bind at 1. unfold modifyScript at 1.
  unfold mbind at 1, M_bind at 1. unfold modifyScript at 1.
  unfold mbind at 1, M_bind at 1. unfold getScript at 1.
  unfold mbind at 1, M_bind at 1.
  match goal with
  | |- context [removeExcluded _ ?l ?s] =>
      destruct (removeExcluded_run l s) as (tr & -> & Htr)
  end.
  cbn [objectStore script trace orgStore] in *.
  assert (Hincl :
    filter (fun r => included text_eq_member
              (objectAt
                 (mkState ((orgStore st ++ f2) ++ f4) (objectStore st)
                    (if Js.truthy av
                     then Script.set_apiVersion av
                            (Script.set_targetOrg (Some tgt)
                               (Script.set_sourceOrg (Some src)
                                  (Script.set_basePath bp (script st))))
                     else Script.set_targetOrg (Some tgt)
                            (Script.set_sourceOrg (Some src)
                               (Script.set_basePath bp (script st))))
                    (trace st)) r) = true)
      (Script.objects
         (if Js.truthy av
          then Script.set_apiVersion av
                 (Script.set_targetOrg (Some tgt)
                    (Script.set_sourceOrg (Some src)
                       (Script.set_basePath bp (script st))))
          else Script.set_targetOrg (Some tgt)
                 (Script.set_sourceOrg (Some src)
                    (Script.set_basePath bp (script st)))))
    = includedObjects st).
  { unfold includedObjects. now destruct (Js.truthy av). }
  rewrite Hincl. clear Hincl.
  unfold mbind at 1, M_bind at 1. unfold modifyScript at 1.
  cbn [objectStore script trace orgStore].
  exists src, tgt, tr, (f2 ++ f4). rewrite app_assoc.
  assert (Hscript :
    Script.set_objects (includedObjects st)
      (if Js.truthy av
       then Script.set_apiVersion av
              (Script.set_targetOrg (Some tgt)
                 (Script.set_sourceOrg (Some src)
                    (Script.set_basePath bp (script st))))
       else Script.set_targetOrg (Some tgt)
              (Script.set_sourceOrg (Some src)
                 (Script.set_basePath bp (script st))))
    = initialized bp av src tgt (includedObjects st) (script st))
    by (unfold initialized; now destruct (Js.truthy av)).
  rewrite Hscript.
  split; [exact Htr|].
  split.
  { apply Forall_app. split.
    - destruct Hsrc as [(-> & _) | (-> & _)]; auto.
    - destruct Htgt as [(-> & _) | (-> & _)]; auto. }
  split; [|unfold throw, assignAndSetup; reflexivity].
  intros Hwf.
  assert (Hin : forall x, x ∈ Script.orgs (script st) ->
                          x < length (orgStore st)).
  { intros x Hx. rewrite Forall_forall in Hwf. now apply Hwf. }
  rewrite !length_app.
  destruct Hsrc as [(-> & Hs & Hsn) | (-> & -> & _)];
    destruct Htgt as [(-> & Ht & Htn) | (-> & -> & _)];
    cbn [length]; rewrite ?length_app; cbn [length];
    try apply Hin in Hs; try apply Hin in Ht;
    (split; [lia|]); (split; [lia|]); try (intros Heq; exfalso; lia).
  intros <-. rewrite <- Hsn, <- Htn. unfold orgAt. cbn [orgStore].
  now rewrite app_nil_r.
Qed.

Lemma orgAt_put l os sc tr x v :
  x < length l -> orgAt (mkState (<[x:=v]> l) os sc tr) x = v.
Proof.
  intros Hlt. unfold orgAt. cbn [orgStore].
  now rewrite list_lookup_insert_eq.
Qed.

Lemma orgAt_put_ne l os sc tr x y v :
  x <> y ->
  orgAt (mkState (<[x:=v]> l) os sc tr) y = default ScriptOrg.new (l !! y).
Proof.
  intros Hne. unfold orgAt. cbn [orgStore].
  now rewrite list_lookup_insert_ne.
Qed.

Lemma assigned_target su tu src tgt st :
  tgt < length (orgStore st) ->
  ScriptOrg.name (orgAt (assigned su tu src tgt st) tgt) = tu /\
  ScriptOrg.media (orgAt (assigned su tu src tgt st) tgt)
  = Some (mediaOf tu).
Proof.
  intros Hlt. unfold assigned. cbv zeta. cbn [orgStore].
  rewrite (orgAt_put _ _ _ _ tgt) by (rewrite length_insert; lia).
  split; reflexivity.
Qed.

Lemma assigned_source su tu src tgt st :
  src < length (orgStore st) ->
  tgt < length (orgStore st) ->
  ScriptOrg.isSource (orgAt (assigned su tu src tgt st) src) = true /\
  (src <> tgt ->
   ScriptOrg.name (orgAt (assigned su tu src tgt st) src) = su /\
   ScriptOrg.media (orgAt (assigned su tu src tgt st) src)
   = Some (mediaOf su)).
Proof.
  intros Hs Ht. unfold assigned. cbv zeta. cbn [orgStore].
  destruct (decide (src = tgt)) as [<- | Hne].
  - split; [|congruence].
    rewrite (orgAt_put _ _ _ _ src) by (rewrite length_insert; lia).
    rewrite (orgAt_put _ _ _ _ src) by lia. reflexivity.
  - rewrite (orgAt_put_ne _ _ _ _ tgt src) by congruence.
    rewrite list_lookup_insert_eq by lia.
    split; [reflexivity|]. intros _. split; reflexivity.
Qed.

Lemma assigned_other su tu src tgt st x :
  x <> src -> x <> tgt ->
  orgAt (assigned su tu src tgt st) x = orgAt st x.
Proof.
  intros Hs Ht. unfold assigned. cbv zeta. cbn [orgStore].
  rewrite (orgAt_put_ne _ _ _ _ tgt x) by congruence.
  now rewrite list_lookup_insert_ne by congruence.
Qed.


(** The tail of [setupAsync] sends nothing out and leaves the orgs alone,
    whatever it returns. *)
Lemma addExtraObjects_frame objects st r st' :
  add_extra objects st = (r, st') ->
  orgStore st' = orgStore st /\ trace st' = trace st.
Proof.
  unfold addExtraObjects. run. case_bool_decide as Hn; run.
  2: { intros [= <- <-]. split; reflexivity. }
  match goal with
  | |- context [object_setup ?n ?s] =>
      destruct (object_setup n s) as [[[]|e] st1] eqn:Hs
  end; run.
  all: apply setup_frame in Hs as (Ho & Ht & _); cbn [orgStore trace] in Ho, Ht.
  - destruct (ScriptObject.parsedQuery _); run; intros [= <- <-];
      cbn [orgStore trace]; split; assumption.
  - intros [= <- <-]. split; assumption.
Qed.


Lemma sameEndpoint_insert (l : list ScriptOrg.t) i v x :
  sameEndpoint v (default ScriptOrg.new (l !! i)) ->
  sameEndpoint (default ScriptOrg.new (<[i:=v]> l !! x))
               (default ScriptOrg.new (l !! x)).
Proof.
  intros Hv. destruct (decide (i = x)) as [-> | Hne].
  - destruct (decide (x < length l)) as [Hlt | Hge].
    + now rewrite list_lookup_insert_eq by assumption.
    + rewrite list_insert_ge by lia. repeat split.
  - rewrite list_lookup_insert_ne by assumption. repeat split.
Qed.

Lemma sameEndpoint_trans a b c :
  sameEndpoint a b -> sameEndpoint b c -> sameEndpoint a c.
Proof. intros (? & ? & ?) (? & ? & ?). repeat split; congruence. Qed.

(** The org setup changes the token, the url and the person-account flag of
    its org at most: every org keeps its name, its media and its side. When
    it fails, it is with one of the connection errors. *)
Lemma org_setup_keeps this st r st' :
  org_setup this st = (r, st') ->
  (forall x, sameEndpoint (orgAt st' x) (orgAt st x)) /\
  (forall e, r = Throw e -> isConnectionError e).
Proof.
  unfold ScriptOrg_setupAsync, _setupConnection, _validateAccessTokenAsync,
    tryQuery. run.
  repeat match goal with
         | |- context [if negb ?b then _ else _] =>
             destruct b; cbn [negb]; run
         | |- context [match _parseForceOrgDisplayResult ?x with _ => _ end] =>
             destruct (_parseForceOrgDisplayResult x); run
         end;
    intros [= <- <-]; (split; [intros x | intros e [= <-]]).
  all: try (unfold isConnectionError; now eauto).
  all: unfold orgAt; cbn [orgStore]; try (repeat split; fail).
  all: repeat (eapply sameEndpoint_trans;
               [apply sameEndpoint_insert; repeat split|]);
    try (repeat split; fail).
  all: apply sameEndpoint_insert; repeat split.
Qed.

Lemma setup_errors this st e st' :
  object_setup this st = (Throw e, st') -> isQueryError e.
Proof.
  intros H. apply setup_inv in H. inversion H; subst;
    unfold isQueryError; eauto.
Qed.

Lemma forEach_setup_errors l st e st' :
  forEach l object_setup st = (Throw e, st') -> isQueryError e.
Proof.
  revert st. induction l as [|this l IH]; intros st; cbn [forEach].
  - discriminate.
  - unfold mbind, M_bind.
    destruct (object_setup this st) as [[[]|e1] st1] eqn:H1.
    + apply IH.
    + intros [= <- <-]. exact (setup_errors _ _ _ _ H1).
Qed.

(** The tail of [setupAsync] fails with the query errors of the RecordType
    object only: a [setup] that returned has left a parsed query. *)
Lemma addExtraObjects_errors objects st e st' :
  add_extra objects st = (Throw e, st') -> isQueryError e.
Proof.
  unfold addExtraObjects. run. case_bool_decide as Hn; run; [|discriminate].
  match goal with
  | |- context [object_setup ?n ?s] =>
      destruct (object_setup n s) as [[[]|e1] st1] eqn:Hs
  end; run.
  - assert (Hlt : length (objectStore st) <
                  length (objectStore st ++ [ScriptObject.new]))
      by (rewrite length_app; cbn; lia).
    match type of Hs with
    | object_setup _ ?s = _ =>
        destruct (lookup_lt_is_Some_2 (objectStore s) (length (objectStore st)))
          as [o Ho]; [cbn [objectStore]; now rewrite length_insert|]
    end.
    destruct (setup_compiled _ _ _ _ Ho Hs) as (q & -> & _). run.
    discriminate.
  - intros [= <- <-]. exact (setup_errors _ _ _ _ Hs).
Qed.

(** X16: the failures of [setupAsync]. With no included entry it throws
    the no-objects error. With one, it returns or it throws a connection
    error or a query error: never the no-objects error, and never the
    TypeError of a missing parsed query. *)
Theorem script_setup_failures su tu bp av st r st' :
  script_setup su tu bp av st = (r, st') ->
  (includedObjects st = [] ->
   r = Throw (CommandInitializationError noObjectsDefinedInPackageFile [])) /\
  (includedObjects st <> [] ->
   forall e, r = Throw e -> isConnectionError e \/ isQueryError e).
Proof.
  intros H.
  destruct (script_setup_head su tu bp av st)
    as (src & tgt & tr & fresh & _ & _ & _ & Heq).
  rewrite Heq in H. clear Heq.
  case_bool_decide as Hn.
  { apply length_zero_iff_nil in Hn. unfold throw in H. injection H as <- <-.
    split; [reflexivity | contradiction]. }
  split; [intros Hnil; rewrite Hnil in Hn; now cbn in Hn|].
  intros _ e ->.
  rewrite assignAndSetup_eq in H.
  unfold mbind at 1, M_bind at 1 in H.
  destruct (org_setup src _) as [[[]|e1] s1] eqn:H1.
  2: { injection H as <- <-. left.
       exact (proj2 (org_setup_keeps _ _ _ _ H1) _ eq_refl). }
  unfold mbind at 1, M_bind at 1 in H.
  destruct (org_setup tgt _) as [[[]|e2] s2] eqn:H2.
  2: { injection H as <- <-. left.
       exact (proj2 (org_setup_keeps _ _ _ _ H2) _ eq_refl). }
  unfold mbind at 1, M_bind at 1 in H. right.
  destruct (forEach _ _ _) as [[[]|e3] s3] eqn:H3.
  - exact (addExtraObjects_errors _ _ _ _ H).
  - injection H as <- <-. exact (forEach_setup_errors _ _ _ _ H3).
Qed.

Lemma sameSettings_trans a b c :
  sameSettings a b -> sameSettings b c -> sameSettings a c.
Proof.
  intros (? & ? & ? & ? & ?) (? & ? & ? & ? & ?). repeat split; congruence.
Qed.

Lemma setup_settings this st r st' :
  object_setup this st = (r, st') -> sameSettings (script st') (script st).
Proof.
  intros H. apply setup_inv in H. destruct H; repeat split.
Qed.

Lemma forEach_setup_settings l st r st' :
  forEach l object_setup st = (r, st') ->
  sameSettings (script st') (script st).
Proof.
  revert st. induction l as [|this l IH]; intros st; cbn [forEach].
  - intros [= <- <-]. repeat split.
  - unfold mbind, M_bind.
    destruct (object_setup this st) as [[[]|e] st1] eqn:H1.
    + intros H. apply IH in H. apply setup_settings in H1.
      exact (sameSettings_trans _ _ _ H H1).
    + intros [= <- <-]. exact (setup_settings _ _ _ _ H1).
Qed.

Lemma addExtraObjects_settings objects st r st' :
  add_extra objects st = (r, st') -> sameSettings (script st') (script st).
Proof.
  unfold addExtraObjects. run. case_bool_decide as Hn; run.
  2: { intros [= <- <-]. repeat split. }
  match goal with
  | |- context [object_setup ?n ?s] =>
      destruct (object_setup n s) as [[[]|e] st1] eqn:Hs
  end; run.
  all: apply setup_settings in Hs.
  - destruct (ScriptObject.parsedQuery _); run; intros [= <- <-];
      cbn [script]; exact Hs.
  - intros [= <- <-]. exact Hs.
Qed.

(** X17: when [setupAsync] returns, [sourceOrg] leads to an org that has the
    source user name, the media of that name and the source side, and
    [targetOrg] to an org that has the target user name and the media of
    that name, also when the two are one object; the base path is the given
    one, and the api version is the given one unless that is empty. *)
Theorem script_setup_assigns_endpoints su tu bp av st st' :
  Forall (fun x => x < length (orgStore st)) (Script.orgs (script st)) ->
  script_setup su tu bp av st = (Ok tt, st') ->
  exists src tgt,
    Script.sourceOrg (script st') = Some src /\
    Script.targetOrg (script st') = Some tgt /\
    ScriptOrg.name (orgAt st' src) = su /\
    ScriptOrg.media (orgAt st' src) = Some (mediaOf su) /\
    ScriptOrg.isSource (orgAt st' src) = true /\
    ScriptOrg.name (orgAt st' tgt) = tu /\
    ScriptOrg.media (orgAt st' tgt) = Some (mediaOf tu) /\
    Script.basePath (script st') = bp /\
    Script.apiVersion (script st')
    = (if Js.truthy av then av else Script.apiVersion (script st)).
Proof.
  intros Hwf H.
  destruct (script_setup_head su tu bp av st)
    as (src & tgt & tr & fresh & _ & _ & Hb & Heq).
  destruct (Hb Hwf) as (Hs & Ht & Hsame). clear Hb.
  rewrite Heq in H. clear Heq.
  case_bool_decide as Hn; [discriminate|].
  rewrite assignAndSetup_eq in H.
  set (s0 := mkState _ _ _ _) in *.
  apply bind_ok in H as ([] & s1 & H1 & H).
  apply bind_ok in H as ([] & s2 & H2 & H).
  apply bind_ok in H as ([] & s3 & H3 & H).
  destruct (org_setup_keeps _ _ _ _ H1) as [Hk1 _].
  destruct (org_setup_keeps _ _ _ _ H2) as [Hk2 _].
  apply org_setup_frame in H1 as (_ & Hsc1 & _).
  apply org_setup_frame in H2 as (_ & Hsc2 & _).
  assert (Horgs : orgStore st' = orgStore s2).
  { apply addExtraObjects_frame in H as [-> _].
    now apply forEach_setup_frame in H3 as [-> _]. }
  assert (Hat : forall x, sameEndpoint (orgAt st' x)
                            (orgAt (assigned su tu src tgt s0) x)).
  { intros x. unfold orgAt at 1. rewrite Horgs.
    exact (sameEndpoint_trans _ _ _ (Hk2 x) (Hk1 x)). }
  destruct (assigned_target su tu src tgt s0 Ht) as [Htn Htm].
  destruct (assigned_source su tu src tgt s0 Hs Ht) as [Hsi Hsn].
  destruct (Hat src) as (Hn1 & Hm1 & Hi1).
  destruct (Hat tgt) as (Hn2 & Hm2 & _).
  exists src, tgt.
  assert (Hscript : Script.sourceOrg (script st') = Some src /\
                    Script.targetOrg (script st') = Some tgt /\
                    Script.basePath (script st') = bp /\
                    Script.apiVersion (script st')
                    = (if Js.truthy av then av
                       else Script.apiVersion (script st))).
  { apply addExtraObjects_settings in H.
    apply forEach_setup_settings in H3. rewrite Hsc2, Hsc1 in H3.
    destruct (sameSettings_trans _ _ _ H H3) as (_ & -> & -> & -> & ->).
    repeat split. }
  destruct Hscript as (? & ? & ? & ?).
  rewrite Hn1, Hm1, Hi1, Hn2, Hm2, Htn, Htm, Hsi.
  destruct (decide (src = tgt)) as [Heq | Hne].
  - pose proof (Hsame Heq) as ->. subst src. rewrite Htn, Htm.
    repeat split; assumption.
  - destruct (Hsn Hne) as [-> ->]. repeat split; assumption.
Qed.

Lemma org_setup_others this st r st' x :
  org_setup this st = (r, st') -> x <> this -> orgAt st' x = orgAt st x.
Proof.
  unfold ScriptOrg_setupAsync, _setupConnection, _validateAccessTokenAsync,
    tryQuery. run.
  repeat match goal with
         | |- context [if negb ?b then _ else _] =>
             destruct b; cbn [negb]; run
         | |- context [match _parseForceOrgDisplayResult ?x with _ => _ end] =>
             destruct (_parseForceOrgDisplayResult x); run
         end;
    intros [= <- <-] Hne; unfold orgAt; cbn [orgStore];
    now rewrite ?list_lookup_insert_ne by congruence.
Qed.

Lemma org_setup_trace this st r st' :
  org_setup this st = (r, st') ->
  exists tr,
    trace st' = trace st ++ tr /\
    forall c u, ExecSfdx c u ∈ tr ->
      c = "force:org:display" /\ u = ScriptOrg.name (orgAt st this) /\
      ScriptOrg.isConnected (orgAt st this) = false.
Proof.
  unfold ScriptOrg_setupAsync, _setupConnection, _validateAccessTokenAsync,
    tryQuery. run.
  destruct (ScriptOrg.isFileMedia (orgAt st this)); cbn [negb]; run.
  { intros [= <- <-]. exists []. rewrite app_nil_r. split; [reflexivity|].
    intros c u Hin. now apply elem_of_nil in Hin. }
  destruct (ScriptOrg.isConnected (orgAt st this)) eqn:Hc; cbn [negb]; run.
  all: repeat match goal with
         | |- context [if negb ?b then _ else _] =>
             destruct b; cbn [negb]; run
         | |- context [match _parseForceOrgDisplayResult ?x with _ => _ end] =>
             destruct (_parseForceOrgDisplayResult x); run
         end.
  all: intros [= <- <-]; cbn [trace]; rewrite <- ?app_assoc; cbn [app];
    eexists; (split; [reflexivity|]); intros c u Hin.
  all: repeat (apply elem_of_cons in Hin as [Hin | Hin];
               [try discriminate; try (injection Hin as -> ->; auto)|]).
  all: try (now apply elem_of_nil in Hin).
Qed.

(** X18: the org setup touches its own org only, and of it only the token,
    the url and the person-account flag: the objects and the script are as
    before, no org is added, the other orgs are unchanged, and its org keeps
    its name, its media and its side. When it fails, it is with a
    connection error. It sends to sfdx nothing but the org display of its
    org's name, and only when the org had no access token. *)
Theorem org_setup_touches_only_its_org this st r st' :
  org_setup this st = (r, st') ->
  objectStore st' = objectStore st /\ script st' = script st /\
  length (orgStore st') = length (orgStore st) /\
  (forall x, x <> this -> orgAt st' x = orgAt st x) /\
  sameEndpoint (orgAt st' this) (orgAt st this) /\
  (forall e, r = Throw e -> isConnectionError e) /\
  exists tr,
    trace st' = trace st ++ tr /\
    forall c u, ExecSfdx c u ∈ tr ->
      c = "force:org:display" /\ u = ScriptOrg.name (orgAt st this) /\
      ScriptOrg.isConnected (orgAt st this) = false.
Proof.
  intros H.
  destruct (org_setup_frame _ _ _ _ H) as (Ho & Hs & Hl).
  destruct (org_setup_keeps _ _ _ _ H) as (Hk & He).
  repeat split; auto.
  - intros x Hx. exact (org_setup_others _ _ _ _ x H Hx).
  - apply Hk.
  - apply Hk.
  - apply Hk.
  - exact (org_setup_trace _ _ _ _ H).
Qed.

(** ** ScriptObject.fieldsToUpdate after setup *)




End Properties.

(** * Examples on the sample environment *)

(** C8 as written fails on an Update of Account.Name where Name can be
    created in the source org and is a formula in the target org: the
    descriptor of the target is read-only, and Name is a field to update. *)
Lemma fieldsToUpdate_ignores_target_readonly :
  fieldsToUpdate Sample.text_eq_member Sample.accountUpdate = ["Name"] /\
  fieldsToUpdate_spec Sample.text_eq_member Sample.accountUpdate = [] /\
  ScriptObject.targetFieldsMap Sample.accountUpdate !! "Name"
    = Some (Sample.formulaField "Name") /\
  SFieldDescribe.isReadonly (Sample.formulaField "Name") = true.
Proof. vm_compute. auto. Qed.


(** C2 on the Delete of Account, given as text. *)
Lemma setup_delete_keeps_id_only_witness :
  objectStore Sample.deleteState !! 0 = Some Sample.accountDelete /\
  ScriptObject.operation Sample.accountDelete = OpText "Delete" /\
  (Sample.run_setup 0 Sample.deleteState).1 = Ok tt /\
  ScriptObject.fieldsInQuery
    (objectAt (Sample.run_setup 0 Sample.deleteState).2 0) = [Some "Id"] /\
  ScriptObject.deleteOldData
    (objectAt (Sample.run_setup 0 Sample.deleteState).2 0) = true.
Proof.
  assert (Hrun : Sample.run_setup 0 Sample.deleteState
                 = (Ok tt, (Sample.run_setup 0 Sample.deleteState).2))
    by (vm_compute; reflexivity).
  split; [reflexivity|]. split; [reflexivity|].
  split; [vm_compute; reflexivity|].
  destruct (setup_delete_keeps_id_only Sample.parseQuery Sample.composeQuery
              Sample.text_eq_member 0 Sample.deleteState Sample.accountDelete
              eq_refl (or_intror eq_refl)
              (Sample.run_setup 0 Sample.deleteState).2 Hrun)
    as (Hfields & _ & Hdel).
  split; assumption.
Defined.

(** C3 on the Insert of Account. *)
Lemma setup_insert_forces_external_id_witness :
  objectStore Sample.insertState !! 0 = Some Sample.accountInsert /\
  Sample.parseQuery "SELECT Name FROM Account"
    = inl (Query.mk [Field "Name"] "Account" None None None) /\
  exists st',
    Sample.run_setup 0 Sample.insertState = (Ok tt, st') /\
    ScriptObject.fieldsInQuery (objectAt st' 0) = [Some "Name"; Some "Id"] /\
    ScriptObject.externalId (objectAt st' 0) = "Id" /\
    ScriptObject.operation (objectAt st' 0) = OpEnum Insert.
Proof.
  split; [reflexivity|]. split; [reflexivity|].
  exact (proj2 (setup_insert_forces_external_id Sample.parseQuery
                  Sample.composeQuery Sample.text_eq_member)
               0 Sample.insertState
               (Query.mk [Field "Name"] "Account" None None None)
               eq_refl eq_refl eq_refl).
Defined.

(** C9 on the Insert of Account under a label that is not its entity. *)
Lemma setup_registers_entity_name_witness :
  objectStore Sample.labelState !! 0
    = Some (ScriptObject.set_name "Customers" Sample.accountInsert) /\
  Sample.parseQuery "SELECT Name FROM Account"
    = inl (Query.mk [Field "Name"] "Account" None None None) /\
  ScriptObject.name (objectAt (Sample.run_setup 0 Sample.labelState).2 0)
    = "Account" /\
  Script.objectsMap (script (Sample.run_setup 0 Sample.labelState).2)
    !! "Account" = Some 0.
Proof.
  split; [reflexivity|]. split; [reflexivity|].
  destruct (setup_registers_entity_name Sample.parseQuery
              Sample.composeQuery Sample.text_eq_member 0 Sample.labelState
              (ScriptObject.set_name "Customers" Sample.accountInsert)
              (Query.mk [Field "Name"] "Account" None None None)
              eq_refl eq_refl
              (Sample.run_setup 0 Sample.labelState).1
              (Sample.run_setup 0 Sample.labelState).2
              (surjective_pairing _)) as (Hname & Hmap & _).
  split; assumption.
Defined.

(** C6 on the Update of Contact with [deleteOldData], under a source org
    with person accounts. *)
Lemma setup_compiles_delete_query_witness :
  objectStore Sample.contactState !! 0 = Some Sample.contactUpdate /\
  Sample.parseQuery (ScriptObject.query Sample.contactUpdate)
    = inl (Query.mk [Field "Id"; Field "RecordTypeId"] "Contact" None None None) /\
  ScriptObject.deleteOldData
    (objectAt (Sample.run_setup 0 Sample.contactState).2 0) = true /\
  exists pq,
    ScriptObject.parsedQuery
      (objectAt (Sample.run_setup 0 Sample.contactState).2 0) = Some pq /\
    ScriptObject.query
      (objectAt (Sample.run_setup 0 Sample.contactState).2 0)
    = Sample.composeQuery pq.
Proof.
  assert (Hdel : ScriptObject.deleteOldData
            (objectAt (Sample.run_setup 0 Sample.contactState).2 0) = true)
    by (vm_compute; reflexivity).
  split; [reflexivity|]. split; [reflexivity|]. split; [exact Hdel|].
  exact (proj1 (setup_compiles_delete_query Sample.parseQuery
                  Sample.composeQuery Sample.text_eq_member 0
                  Sample.contactState Sample.contactUpdate
                  (Query.mk [Field "Id"; Field "RecordTypeId"] "Contact"
                            None None None)
                  eq_refl eq_refl
                  (Sample.run_setup 0 Sample.contactState).1
                  (Sample.run_setup 0 Sample.contactState).2
                  (surjective_pairing _) Hdel)).
Defined.

(** C8 as amended, on an entry without describe maps. *)
Lemma fieldsToUpdate_source_writable_witness :
  ScriptObject.sourceFieldsMap Sample.accountInsert = ∅ /\
  fieldsToUpdate Sample.text_eq_member Sample.accountInsert = [].
Proof.
  split; [reflexivity|].
  exact (proj1 (proj2 (fieldsToUpdate_source_writable Sample.text_eq_member
                         Sample.accountInsert))
               (or_intror (or_introl eq_refl))).
Defined.

(** C7 on an org that sfdx does not know: the TypeError. *)
Lemma org_setup_empty_display_witness :
  ScriptOrg.isFileMedia (orgAt Sample.unknownOrgState 0) = false /\
  ScriptOrg.isConnected (orgAt Sample.unknownOrgState 0) = false /\
  (Sample.run_orgSetup 0 Sample.unknownOrgState).1
    = Throw (TypeError "Cannot read property 'isConnected' of null").
Proof.
  split; [reflexivity|]. split; [reflexivity|].
  exact (proj1 (org_setup_empty_display Sample.execSfdx Sample.queryAsync 0
                  Sample.unknownOrgState eq_refl eq_refl eq_refl)).
Defined.

(** C4 on a script whose only entry is excluded and Readonly as text. *)
Lemma script_setup_drops_excluded_readonly_text_witness :
  Sample.text_eq_member "Readonly" Readonly = false /\
  ScriptObject.excluded Sample.excludedReadonly = true /\
  ScriptObject.operation Sample.excludedReadonly = OpText "Readonly" /\
  exists st',
    Sample.run_setupAsync "dev" "csvfile" "" "" Sample.excludedScript
    = (Throw (CommandInitializationError noObjectsDefinedInPackageFile []), st')
    /\ Script.objects (script st') = [].
Proof.
  split; [reflexivity|]. split; [reflexivity|]. split; [reflexivity|].
  exact (proj2 (proj2 (script_setup_drops_excluded_readonly_text
                  Sample.parseQuery Sample.composeQuery Sample.text_eq_member
                  Sample.NOT_SUPPORTED_OBJECTS Sample.execSfdx
                  Sample.queryAsync "dev" "csvfile" "" ""
                  Sample.excludedScript 0 Sample.excludedReadonly
                  eq_refl eq_refl eq_refl eq_refl eq_refl))).
Defined.



(** ** Further examples *)

Lemma setup_keeps_initial_external_id_witness :
  objectStore Sample.insertState !! 0 = Some Sample.accountInsert /\
  ScriptObject.initialExternalId
    (objectAt (Sample.run_setup 0 Sample.insertState).2 0) = "Name".
Proof.
  split; [reflexivity|].
  exact (proj1 (setup_keeps_initial_external_id Sample.parseQuery
                  Sample.composeQuery Sample.text_eq_member 0
                  Sample.insertState Sample.accountInsert eq_refl
                  (Sample.run_setup 0 Sample.insertState).1
                  (Sample.run_setup 0 Sample.insertState).2
                  (surjective_pairing _))).
Defined.


Lemma setup_field_names_distinct_witness :
  objectStore Cases.twiceState !! 0 = Some Cases.accountTwice /\
  Sample.parseQuery (ScriptObject.query Cases.accountTwice)
    = inl (Query.mk [Field "Name"; Field "Name"] "Account" None None None) /\
  NoDup (ScriptObject.fieldsInQuery
           (objectAt (Sample.run_setup 0 Cases.twiceState).2 0)).
Proof.
  split; [reflexivity|]. split; [reflexivity|].
  exact (setup_field_names_distinct Sample.parseQuery Sample.composeQuery
           Sample.text_eq_member 0 Cases.twiceState Cases.accountTwice
           (Query.mk [Field "Name"; Field "Name"] "Account" None None None)
           eq_refl eq_refl
           (Sample.run_setup 0 Cases.twiceState).1
           (Sample.run_setup 0 Cases.twiceState).2
           (surjective_pairing _)).
Defined.

Lemma setup_record_type_field_witness :
  objectStore Cases.recordTypesState !! 0 = Some Sample.accountRecordTypes /\
  Sample.parseQuery (ScriptObject.query Sample.accountRecordTypes)
    = inl (Query.mk [Field "Name"; Field "RecordTypeId"] "Account"
                    None None None) /\
  ScriptObject.hasRecordTypeIdField
    (objectAt (Sample.run_setup 0 Cases.recordTypesState).2 0) = true.
Proof.
  split; [reflexivity|]. split; [reflexivity|].
  exact (setup_record_type_field Sample.parseQuery Sample.composeQuery
           Sample.text_eq_member 0 Cases.recordTypesState
           Sample.accountRecordTypes
           (Query.mk [Field "Name"; Field "RecordTypeId"] "Account"
                     None None None)
           eq_refl eq_refl
           (Sample.run_setup 0 Cases.recordTypesState).1
           (Sample.run_setup 0 Cases.recordTypesState).2
           (surjective_pairing _)).
Defined.

Lemma setup_touches_only_its_plan_witness :
  orgStore (Sample.run_setup 0 Sample.contactState).2
    = orgStore Sample.contactState /\
  trace (Sample.run_setup 0 Sample.contactState).2 = [].
Proof.
  pose proof (setup_touches_only_its_plan Sample.parseQuery
                Sample.composeQuery Sample.text_eq_member 0
                Sample.contactState
                (Sample.run_setup 0 Sample.contactState).1
                (Sample.run_setup 0 Sample.contactState).2
                (surjective_pairing _)) as (Horgs & Htrace & _).
  split; [exact Horgs | exact Htrace].
Defined.

Lemma setup_without_delete_data_witness :
  objectStore Sample.insertState !! 0 = Some Sample.accountInsert /\
  ScriptObject.deleteOldData Sample.accountInsert = false /\
  ScriptObject.parsedDeleteQuery
    (objectAt (Sample.run_setup 0 Sample.insertState).2 0) = None.
Proof.
  split; [reflexivity|]. split; [reflexivity|].
  exact (proj1 (proj2 (setup_without_delete_data Sample.parseQuery
                  Sample.composeQuery Sample.text_eq_member 0
                  Sample.insertState Sample.accountInsert
                  eq_refl eq_refl eq_refl
                  (Sample.run_setup 0 Sample.insertState).1
                  (Sample.run_setup 0 Sample.insertState).2
                  (surjective_pairing _)))).
Defined.

Lemma setup_limited_query_witness :
  objectStore Sample.insertState !! 0 = Some Sample.accountInsert /\
  Sample.parseQuery (ScriptObject.query Sample.accountInsert)
    = inl (Query.mk [Field "Name"] "Account" None None None) /\
  ScriptObject.isLimitedQuery
    (objectAt (Sample.run_setup 0 Sample.insertState).2 0) = false.
Proof.
  split; [reflexivity|]. split; [reflexivity|].
  exact (setup_limited_query Sample.parseQuery Sample.composeQuery
           Sample.text_eq_member 0 Sample.insertState Sample.accountInsert
           (Query.mk [Field "Name"] "Account" None None None)
           eq_refl eq_refl
           (Sample.run_setup 0 Sample.insertState).1
           (Sample.run_setup 0 Sample.insertState).2
           (surjective_pairing _)).
Defined.

Lemma setup_malformed_query_registers_nothing_witness :
  objectStore Cases.brokenState !! 0 = Some Cases.accountBroken /\
  Sample.parseQuery (ScriptObject.query Cases.accountBroken)
    = inr "SELECT expected" /\
  (Sample.run_setup 0 Cases.brokenState).1
    = Throw (CommandInitializationError MalformedQuery
               ["Customers"; "FROM Account"; "SELECT expected"]).
Proof.
  split; [reflexivity|]. split; [reflexivity|].
  exact (proj1 (setup_malformed_query_registers_nothing Sample.parseQuery
                  Sample.composeQuery Sample.text_eq_member 0
                  Cases.brokenState Cases.accountBroken "SELECT expected"
                  eq_refl eq_refl
                  (Sample.run_setup 0 Cases.brokenState).1
                  (Sample.run_setup 0 Cases.brokenState).2
                  (surjective_pairing _))).
Defined.

Lemma org_setup_connected_witness :
  orgStore Sample.insertState !! 0 = Some Sample.personAccountOrg /\
  ScriptOrg.isFileMedia Sample.personAccountOrg = false /\
  ScriptOrg.isConnected Sample.personAccountOrg = true /\
  (Sample.run_orgSetup 0 Sample.insertState).1 = Ok tt /\
  trace (Sample.run_orgSetup 0 Sample.insertState).2
  = [QueryAsync Sample.personAccountOrg "SELECT Id FROM Account LIMIT 1" false;
     QueryAsync Sample.personAccountOrg
       "SELECT IsPersonAccount FROM Account LIMIT 1" false;
     Log infoNormal successfullyConnected ["dev"]].
Proof.
  split; [reflexivity|]. split; [reflexivity|]. split; [reflexivity|].
  rewrite (org_setup_connected Sample.execSfdx Sample.queryAsync 0
             Sample.insertState Sample.personAccountOrg
             eq_refl eq_refl eq_refl).
  split; reflexivity.
Defined.

Lemma org_setup_connects_witness :
  orgStore Cases.devState !! 0 = Some Cases.devOrg /\
  ScriptOrg.isFileMedia Cases.devOrg = false /\
  ScriptOrg.isConnected Cases.devOrg = false /\
  OrgInfo.isConnected Cases.devInfo = true /\
  (Sample.run_orgSetup 0 Cases.devState).1 = Ok tt /\
  orgStore (Sample.run_orgSetup 0 Cases.devState).2 !! 0
  = Some (ScriptOrg.mk "dev" (Some "https://dev.example.com")
            (Some "00Dxx!AQ") (Some Org) true false).
Proof.
  split; [reflexivity|]. split; [reflexivity|]. split; [reflexivity|].
  split; [reflexivity|].
  assert (Hinfo : _parseForceOrgDisplayResult
            (Sample.execSfdx
               (trace Cases.devState ++
                [Log infoNormal tryingToConnectCLI
                     [ScriptOrg.name Cases.devOrg]])
               "force:org:display" (ScriptOrg.name Cases.devOrg))
            = Some Cases.devInfo) by (vm_compute; reflexivity).
  destruct (org_setup_connects Sample.execSfdx Sample.queryAsync 0
              Cases.devState Cases.devOrg Cases.devInfo
              eq_refl eq_refl eq_refl Hinfo eq_refl)
    as (st' & <- & _ & _ & Hres & Horg).
  split; [exact Hres | exact Horg].
Defined.


Lemma script_setup_map_keys_are_plan_names_witness :
  Forall (fun r => r < length (objectStore Sample.recordTypeScript))
         (Script.objects (script Sample.recordTypeScript)) /\
  NoDup (Script.objects (script Sample.recordTypeScript)) /\
  (Sample.run_setupAsync "dev" "csvfile" "" "" Sample.recordTypeScript).1
    = Ok tt /\
  Script.objectsMap
    (script (Sample.run_setupAsync "dev" "csvfile" "" ""
               Sample.recordTypeScript).2) !! "Contact" = Some 1 /\
  ScriptObject.name
    (objectAt (Sample.run_setupAsync "dev" "csvfile" "" ""
                 Sample.recordTypeScript).2 1) = "Contact".
Proof.
  assert (Hwf : Forall (fun r => r < length (objectStore Sample.recordTypeScript))
                       (Script.objects (script Sample.recordTypeScript)))
    by (repeat constructor; cbn; lia).
  assert (Hnd : NoDup (Script.objects (script Sample.recordTypeScript)))
    by (apply NoDup_seq).
  assert (Hrun : Sample.run_setupAsync "dev" "csvfile" "" ""
                   Sample.recordTypeScript
                 = (Ok tt, (Sample.run_setupAsync "dev" "csvfile" "" ""
                              Sample.recordTypeScript).2))
    by (vm_compute; reflexivity).
  assert (Hkey : Script.objectsMap
            (script (Sample.run_setupAsync "dev" "csvfile" "" ""
                       Sample.recordTypeScript).2) !! "Contact" = Some 1)
    by (vm_compute; reflexivity).
  split; [exact Hwf|]. split; [exact Hnd|].
  split; [vm_compute; reflexivity|]. split; [exact Hkey|].
  destruct (script_setup_map_keys_are_plan_names Sample.parseQuery
              Sample.composeQuery Sample.text_eq_member
              Sample.NOT_SUPPORTED_OBJECTS Sample.execSfdx Sample.queryAsync
              "dev" "csvfile" "" "" Sample.recordTypeScript _ Hwf Hnd Hrun
              "Contact" 1 Hkey) as [Hold | [_ Hname]].
  - discriminate Hold.
  - exact Hname.
Defined.


Lemma script_setup_failures_witness :
  includedObjects Sample.text_eq_member Sample.excludedScript = [] /\
  (Sample.run_setupAsync "dev" "csvfile" "" "" Sample.excludedScript).1
  = Throw (CommandInitializationError noObjectsDefinedInPackageFile []).
Proof.
  split; [reflexivity|].
  exact (proj1 (script_setup_failures Sample.parseQuery
                  Sample.composeQuery Sample.text_eq_member
                  Sample.NOT_SUPPORTED_OBJECTS Sample.execSfdx
                  Sample.queryAsync "dev" "csvfile" "" ""
                  Sample.excludedScript
                  (Sample.run_setupAsync "dev" "csvfile" "" ""
                     Sample.excludedScript).1
                  (Sample.run_setupAsync "dev" "csvfile" "" ""
                     Sample.excludedScript).2
                  (surjective_pairing _)) eq_refl).
Defined.

Lemma script_setup_assigns_endpoints_witness :
  Forall (fun x => x < length (orgStore Sample.recordTypeScript))
         (Script.orgs (script Sample.recordTypeScript)) /\
  (Sample.run_setupAsync "dev" "csvfile" "" "" Sample.recordTypeScript).1
    = Ok tt /\
  exists src tgt,
    Script.sourceOrg
      (script (Sample.run_setupAsync "dev" "csvfile" "" ""
                 Sample.recordTypeScript).2) = Some src /\
    Script.targetOrg
      (script (Sample.run_setupAsync "dev" "csvfile" "" ""
                 Sample.recordTypeScript).2) = Some tgt /\
    ScriptOrg.name
      (orgAt (Sample.run_setupAsync "dev" "csvfile" "" ""
                Sample.recordTypeScript).2 src) = "dev" /\
    ScriptOrg.media
      (orgAt (Sample.run_setupAsync "dev" "csvfile" "" ""
                Sample.recordTypeScript).2 tgt) = Some File.
Proof.
  assert (Hrun : Sample.run_setupAsync "dev" "csvfile" "" ""
                   Sample.recordTypeScript
                 = (Ok tt, (Sample.run_setupAsync "dev" "csvfile" "" ""
                              Sample.recordTypeScript).2))
    by (vm_compute; reflexivity).
  split; [constructor|]. split; [vm_compute; reflexivity|].
  destruct (script_setup_assigns_endpoints Sample.parseQuery
              Sample.composeQuery Sample.text_eq_member
              Sample.NOT_SUPPORTED_OBJECTS Sample.execSfdx Sample.queryAsync
              "dev" "csvfile" "" "" Sample.recordTypeScript _
              (Forall_nil_2 _) Hrun)
    as (src & tgt & Hs & Ht & Hname & _ & _ & _ & Hmedia & _).
  exists src, tgt. auto.
Defined.

Lemma org_setup_touches_only_its_org_witness :
  script (Sample.run_orgSetup 0 Sample.unknownOrgState).2
    = script Sample.unknownOrgState /\
  length (orgStore (Sample.run_orgSetup 0 Sample.unknownOrgState).2) = 2.
Proof.
  pose proof (org_setup_touches_only_its_org Sample.execSfdx
                Sample.queryAsync 0 Sample.unknownOrgState
                (Sample.run_orgSetup 0 Sample.unknownOrgState).1
                (Sample.run_orgSetup 0 Sample.unknownOrgState).2
                (surjective_pairing _)) as (_ & Hs & Hl & _).
  split; [exact Hs | exact Hl].
Defined.

